(** * Bus_App: the live vehicle feed of the frontend

    A shallow embedding of the real-time part of the frontend:

    - [useVehiclesWebSocket] (the second module of
      frontend/src/hooks/useApi.ts): the hook that owns the WebSocket,
      reconnects after a close, keeps the pending viewport and dispatches
      inbound frames;
    - [LiveMap] (the second module of frontend/src/pages/Arrivals.tsx): the
      page that folds the position batches into its [vehicles] table and
      keeps one Leaflet marker per table entry;
    - around them: [useApi] (the first module of the same hooks file), the
      page [LiveTracking] (frontend/src/pages/LiveTracking.tsx), which
      hands the hook another callback, and the texts and colours of the
      cards [ArrivalCard] and [ETACard].

    The browser is modelled as far as the code observes it: sockets with a
    [readyState], pending timers, a clock.  React state setters are applied
    in the order in which the code calls them. *)

From Stdlib Require Import QArith ZArith Lia.
From stdpp Require Import base option list strings pretty.

#[local] Set Warnings "-register-all".

Local Open Scope Z_scope.
Local Open Scope string_scope.
Local Open Scope list_scope.

(** ** JavaScript values

    What [JSON.parse] can return, plus [undefined] for a property that is
    not there.  Numbers are kept as exact rationals: the code stores and
    compares them, it never computes with them.  A string stands for its
    sequence of code units, each below 256.  An object lists each of its
    own properties once. *)

Inductive value : Type :=
  | VUndefined
  | VNull
  | VBool (b : bool)
  | VNumber (n : Q)
  | VString (s : string)
  | VArray (elems : list value)
  | VObject (props : list (string * value)).

Definition of_nat (n : nat) : value := VNumber (inject_Z (Z.of_nat n)).

(** ** Completions: a statement either completes or throws *)

Inductive js_error : Type := TypeError | SyntaxError.

Inductive completion (A : Type) : Type :=
  | Normal (a : A)
  | Throw (e : js_error).
Arguments Normal {A} a.
Arguments Throw {A} e.

#[export] Instance completion_ret : MRet completion := fun A a => Normal a.

#[export] Instance completion_bind : MBind completion := fun A B k c =>
  match c with
  | Normal a => k a
  | Throw e => Throw e
  end.

(** ** Property access *)

Fixpoint own_property (props : list (string * value)) (name : string) : value :=
  match props with
  | [] => VUndefined
  | (k, v) :: rest => if String.eqb k name then v else own_property rest name
  end.

(** [v.name] for the property names the code reads ([type], [vehicles],
    [length], [vehicle_count], [message], [trip_id], [latitude], ...): none
    of them is an array index or lives on a prototype, except [length] of
    arrays and strings.  Reading a property of [undefined] or [null]
    throws. *)
Definition get (v : value) (name : string) : completion value :=
  match v with
  | VUndefined | VNull => Throw TypeError
  | VObject props => Normal (own_property props name)
  | VArray elems =>
      Normal (if String.eqb name "length" then of_nat (length elems) else VUndefined)
  | VString s =>
      Normal (if String.eqb name "length" then of_nat (String.length s) else VUndefined)
  | VBool _ | VNumber _ => Normal VUndefined
  end.

(** [`${v}`]: string conversion inside a template literal.  It throws for an
    object that carries an own [toString] property (a JSON value is never
    callable), and for an array that holds such an object, since
    [Array.prototype.join] converts every element but [null]. *)
Fixpoint to_string_throws (v : value) : bool :=
  match v with
  | VObject props => existsb (fun p => String.eqb (fst p) "toString") props
  | VArray elems => existsb to_string_throws elems
  | _ => false
  end.

Definition template (v : value) : completion unit :=
  if to_string_throws v then Throw TypeError else Normal tt.

(** [for (const v of x)]: arrays yield their elements, strings their
    characters, nothing else that JSON can produce is iterable. *)
Fixpoint characters (s : string) : list value :=
  match s with
  | EmptyString => []
  | String c rest => VString (String c EmptyString) :: characters rest
  end.

Definition iterate (x : value) : completion (list value) :=
  match x with
  | VArray elems => Normal elems
  | VString s => Normal (characters s)
  | _ => Throw TypeError
  end.

(** ** [Map]

    A JavaScript [Map] keeps its entries in insertion order; [set] on a key
    that is present replaces the value in place.  Keys are compared with
    SameValueZero: by content for primitives, by reference for objects and
    arrays.  An object that comes out of [JSON.parse] is a fresh reference,
    so as a key it equals no stored key.  (A key read back from a [Map] is
    the stored reference, which this model cannot tell from a fresh one:
    what is proved about markers is proved for string keys, as [trip_id] is
    declared.) *)

Definition same_value_zero (a b : value) : bool :=
  match a, b with
  | VUndefined, VUndefined => true
  | VNull, VNull => true
  | VBool x, VBool y => Bool.eqb x y
  | VNumber x, VNumber y => Qeq_bool x y
  | VString x, VString y => String.eqb x y
  | _, _ => false
  end.

Section JsMap.
Context {V : Type}.

Definition jsmap : Type := list (value * V).

Fixpoint map_get (k : value) (m : jsmap) : option V :=
  match m with
  | [] => None
  | (k', v) :: rest => if same_value_zero k' k then Some v else map_get k rest
  end.

Definition map_has (k : value) (m : jsmap) : bool :=
  match map_get k m with Some _ => true | None => false end.

Fixpoint map_set (k : value) (v : V) (m : jsmap) : jsmap :=
  match m with
  | [] => [(k, v)]
  | (k', v') :: rest =>
      if same_value_zero k' k then (k', v) :: rest
      else (k', v') :: map_set k v rest
  end.

Definition map_keys (m : jsmap) : list value := map fst m.

Definition map_size (m : jsmap) : nat := length m.
End JsMap.
Arguments jsmap V : clear implicits.

(** ** The browser: sockets, timers, clock *)

Inductive ReadyState : Type := CONNECTING | OPEN | CLOSING | CLOSED.

Record MapBounds : Type := {
  north : Q;
  south : Q;
  east : Q;
  west : Q;
}.

(** The one request the client sends:
    [{ type: 'subscribe_bounds', bounds }]. *)
Inductive outbound : Type :=
  | subscribe_bounds (bounds : MapBounds).

(** A [WebSocket] object: its [readyState] and what was handed to [send]. *)
Record WebSocket : Type := {
  readyState : ReadyState;
  sent : list outbound;
}.

(** Sockets are named by the order of their construction; a timer by the
    id [setTimeout] returned, a positive integer.  Every timer of the hook
    runs the same callback, the reconnect. *)
Record browser : Type := {
  now : Z;
  sockets : list WebSocket;
  timers : list (positive * Z);
  next_timer : positive;
}.

(** ** The state of [useVehiclesWebSocket]: four refs, four [useState]s *)

Record hook : Type := {
  wsRef : option nat;
  reconnectTimeoutRef : option positive;
  pendingBoundsRef : option MapBounds;
  connected : bool;
  vehicleCount : value;
  error : option string;
  lastUpdate : option Z;
}.

(** ** The state of [LiveMap] *)

(** A Leaflet marker as the page drives it: position, the bearing its icon
    was built from, and the vehicle its popup and click handler captured
    when it was created.  Leaflet is taken to accept what it is handed. *)
Record marker : Type := {
  latlng : value * value;
  icon : value;
  popup : value;
}.

(** [render_failed] records that a state updater or an effect threw while
    React rendered, outside any handler of the page; what React then does
    to the tree is not modelled. *)
Record page : Type := {
  vehicles : jsmap value;
  markersRef : jsmap marker;
  mapReady : bool;
  render_failed : bool;
}.

Record world : Type := {
  env : browser;
  hk : hook;
  pg : page;
}.

Definition initial_hook : hook :=
  {| wsRef := None; reconnectTimeoutRef := None; pendingBoundsRef := None;
     connected := false; vehicleCount := of_nat 0; error := None;
     lastUpdate := None |}.

Definition initial_page : page :=
  {| vehicles := []; markersRef := []; mapReady := false; render_failed := false |}.

Definition initial (t0 : Z) : world :=
  {| env := {| now := t0; sockets := []; timers := []; next_timer := 1%positive |};
     hk := initial_hook;
     pg := initial_page |}.

(** *** Assignments *)

Definition with_env (f : browser -> browser) (s : world) : world :=
  {| env := f (env s); hk := hk s; pg := pg s |}.
Definition with_hk (f : hook -> hook) (s : world) : world :=
  {| env := env s; hk := f (hk s); pg := pg s |}.
Definition with_pg (f : page -> page) (s : world) : world :=
  {| env := env s; hk := hk s; pg := f (pg s) |}.

Definition set_now (t : Z) (b : browser) : browser :=
  {| now := t; sockets := sockets b; timers := timers b; next_timer := next_timer b |}.
Definition set_sockets (l : list WebSocket) (b : browser) : browser :=
  {| now := now b; sockets := l; timers := timers b; next_timer := next_timer b |}.
Definition set_timers (l : list (positive * Z)) (b : browser) : browser :=
  {| now := now b; sockets := sockets b; timers := l; next_timer := next_timer b |}.
Definition set_next_timer (n : positive) (b : browser) : browser :=
  {| now := now b; sockets := sockets b; timers := timers b; next_timer := n |}.

Definition set_wsRef (r : option nat) (h : hook) : hook :=
  {| wsRef := r; reconnectTimeoutRef := reconnectTimeoutRef h;
     pendingBoundsRef := pendingBoundsRef h; connected := connected h;
     vehicleCount := vehicleCount h; error := error h; lastUpdate := lastUpdate h |}.
Definition set_reconnectTimeoutRef (r : option positive) (h : hook) : hook :=
  {| wsRef := wsRef h; reconnectTimeoutRef := r;
     pendingBoundsRef := pendingBoundsRef h; connected := connected h;
     vehicleCount := vehicleCount h; error := error h; lastUpdate := lastUpdate h |}.
Definition set_pendingBoundsRef (r : option MapBounds) (h : hook) : hook :=
  {| wsRef := wsRef h; reconnectTimeoutRef := reconnectTimeoutRef h;
     pendingBoundsRef := r; connected := connected h;
     vehicleCount := vehicleCount h; error := error h; lastUpdate := lastUpdate h |}.
Definition set_connected (c : bool) (h : hook) : hook :=
  {| wsRef := wsRef h; reconnectTimeoutRef := reconnectTimeoutRef h;
     pendingBoundsRef := pendingBoundsRef h; connected := c;
     vehicleCount := vehicleCount h; error := error h; lastUpdate := lastUpdate h |}.
Definition set_vehicleCount (n : value) (h : hook) : hook :=
  {| wsRef := wsRef h; reconnectTimeoutRef := reconnectTimeoutRef h;
     pendingBoundsRef := pendingBoundsRef h; connected := connected h;
     vehicleCount := n; error := error h; lastUpdate := lastUpdate h |}.
Definition set_error (e : option string) (h : hook) : hook :=
  {| wsRef := wsRef h; reconnectTimeoutRef := reconnectTimeoutRef h;
     pendingBoundsRef := pendingBoundsRef h; connected := connected h;
     vehicleCount := vehicleCount h; error := e; lastUpdate := lastUpdate h |}.
Definition set_lastUpdate (d : option Z) (h : hook) : hook :=
  {| wsRef := wsRef h; reconnectTimeoutRef := reconnectTimeoutRef h;
     pendingBoundsRef := pendingBoundsRef h; connected := connected h;
     vehicleCount := vehicleCount h; error := error h; lastUpdate := d |}.

Definition set_vehicles (m : jsmap value) (p : page) : page :=
  {| vehicles := m; markersRef := markersRef p; mapReady := mapReady p;
     render_failed := render_failed p |}.
Definition set_markersRef (m : jsmap marker) (p : page) : page :=
  {| vehicles := vehicles p; markersRef := m; mapReady := mapReady p;
     render_failed := render_failed p |}.
Definition set_mapReady (r : bool) (p : page) : page :=
  {| vehicles := vehicles p; markersRef := markersRef p; mapReady := r;
     render_failed := render_failed p |}.
Definition set_render_failed (f : bool) (p : page) : page :=
  {| vehicles := vehicles p; markersRef := markersRef p; mapReady := mapReady p;
     render_failed := f |}.

(** React's setters, named as in the hook and the page. *)
Definition setConnected (c : bool) : world -> world := with_hk (set_connected c).
Definition setVehicleCount (n : value) : world -> world := with_hk (set_vehicleCount n).
Definition setError (e : option string) : world -> world := with_hk (set_error e).
Definition setLastUpdate (d : option Z) : world -> world := with_hk (set_lastUpdate d).

(** *** What the browser offers the code *)

(** [ws.readyState] of socket [h]. *)
Definition ready (s : world) (h : nat) : option ReadyState :=
  readyState <$> sockets (env s) !! h.

(** [wsRef.current?.readyState === WebSocket.OPEN] *)
Definition current_is_open (s : world) : bool :=
  match wsRef (hk s) with
  | Some h =>
      match ready s h with
      | Some OPEN => true
      | _ => false
      end
  | None => false
  end.

(** [new WebSocket(url)]: a socket that is connecting. *)
Definition new_WebSocket (s : world) : nat * world :=
  (length (sockets (env s)),
   with_env (fun b => set_sockets (sockets b ++ [{| readyState := CONNECTING; sent := [] |}]) b) s).

Definition update_socket (h : nat) (f : WebSocket -> WebSocket) (s : world) : world :=
  with_env (fun b => set_sockets (alter f h (sockets b)) b) s.

Definition set_readyState (r : ReadyState) (w : WebSocket) : WebSocket :=
  {| readyState := r; sent := sent w |}.

(** [ws.send(data)] on an open socket.  (On a connecting socket [send]
    throws and on a closing or closed one it drops the data; the hook only
    calls it behind the [OPEN] test of [sendBounds].) *)
Definition ws_send (h : nat) (m : outbound) (s : world) : world :=
  update_socket h (fun w => {| readyState := readyState w; sent := sent w ++ [m] |}) s.

(** [ws.close()]: a connecting or open socket starts closing; its [close]
    event comes later.  On a closing or closed socket nothing happens. *)
Definition ws_close (h : nat) (s : world) : world :=
  update_socket h (fun w =>
    match readyState w with
    | CONNECTING | OPEN => set_readyState CLOSING w
    | CLOSING | CLOSED => w
    end) s.

(** [setTimeout(callback, delay)] *)
Definition setTimeout (delay : Z) (s : world) : positive * world :=
  let id := next_timer (env s) in
  (id,
   with_env (fun b =>
     set_next_timer (Pos.succ id) (set_timers (timers b ++ [(id, now b + delay)]) b)) s).

(** [clearTimeout(id)] *)
Definition clearTimeout (id : positive) (s : world) : world :=
  with_env (fun b =>
    set_timers (List.filter (fun t => negb (Pos.eqb (fst t) id)) (timers b)) b) s.

(** ** The hook [useVehiclesWebSocket] *)

(** [sendBounds]: sends on the socket in [wsRef], and only if that one is
    open. *)
Definition sendBounds (bounds : MapBounds) (s : world) : world :=
  match wsRef (hk s) with
  | Some h =>
      match ready s h with
      | Some OPEN => ws_send h (subscribe_bounds bounds) s
      | _ => s
      end
  | None => s
  end.

(** [connect]: returns at once if the socket in [wsRef] is open; otherwise
    clears the timer in [reconnectTimeoutRef], constructs a socket and
    stores it in [wsRef].  The four handlers it installs are below. *)
Definition connect (s : world) : world :=
  if current_is_open s then s
  else
    let s :=
      match reconnectTimeoutRef (hk s) with
      | Some id => clearTimeout id s
      | None => s
      end in
    let '(ws, s) := new_WebSocket s in
    with_hk (set_wsRef (Some ws)) s.

(** [ws.onopen] *)
Definition ws_onopen (s : world) : world :=
  let s := setConnected true s in
  let s := setError None s in
  match pendingBoundsRef (hk s) with
  | Some bounds =>
      let s := sendBounds bounds s in
      with_hk (set_pendingBoundsRef None) s
  | None => s
  end.

(** [ws.onerror] *)
Definition ws_onerror (s : world) : world :=
  setError (Some "WebSocket connection error") s.

(** [ws.onclose]: the reconnect is scheduled whatever the cause of the
    close, and whichever socket closed. *)
Definition ws_onclose (s : world) : world :=
  let s := setConnected false s in
  let s := with_hk (set_wsRef None) s in
  let '(id, s) := setTimeout 3000 s in
  with_hk (set_reconnectTimeoutRef (Some id)) s.

(** The callback of the reconnect timer. *)
Definition reconnect (s : world) : world := connect s.

(** [subscribeToBounds] *)
Definition subscribeToBounds (bounds : MapBounds) (s : world) : world :=
  if current_is_open s then sendBounds bounds s
  else with_hk (set_pendingBoundsRef (Some bounds)) s.

(** The cleanup of the mounting effect. *)
Definition cleanup (s : world) : world :=
  let s :=
    match reconnectTimeoutRef (hk s) with
    | Some id => clearTimeout id s
    | None => s
    end in
  match wsRef (hk s) with
  | Some h => with_hk (set_wsRef None) (ws_close h s)
  | None => s
  end.

(** The mounting effect with [autoConnect] left at its default. *)
Definition mount (s : world) : world := connect s.

(** ** The page [LiveMap] *)

(** The trip ids whose marker the effect removes: those that are drawn and
    are no key of the table ([!currentTripIds.has(tripId)]). *)
Definition toRemove (table : jsmap value) (drawn : jsmap marker) : list value :=
  List.filter (fun tripId => negb (map_has tripId table)) (map_keys drawn).

(** The first loop of the marker effect: [marker.remove()] and
    [markersRef.current.delete(tripId)] on each of them. *)
Definition remove_markers (table : jsmap value) (drawn : jsmap marker) : jsmap marker :=
  List.filter (fun entry => map_has (fst entry) table) drawn.

(** One round of the second loop: move the marker of [tripId] and rebuild
    its icon, or create it. *)
Definition place_marker (acc : completion unit * jsmap marker) (entry : value * value)
  : completion unit * jsmap marker :=
  match acc with
  | (Throw e, drawn) => (Throw e, drawn)
  | (Normal _, drawn) =>
      let '(tripId, vehicle) := entry in
      match get vehicle "latitude", get vehicle "longitude", get vehicle "bearing" with
      | Normal lat, Normal lng, Normal bearing =>
          match map_get tripId drawn with
          | Some existingMarker =>
              (Normal tt,
               map_set tripId
                 {| latlng := (lat, lng); icon := bearing; popup := popup existingMarker |}
                 drawn)
          | None =>
              (Normal tt,
               map_set tripId {| latlng := (lat, lng); icon := bearing; popup := vehicle |}
                 drawn)
          end
      | _, _, _ => (Throw TypeError, drawn)
      end
  end.

(** The effect "update markers when vehicles change". *)
Definition update_markers (p : page) : page :=
  if mapReady p then
    let drawn := remove_markers (vehicles p) (markersRef p) in
    let '(c, drawn) := fold_left place_marker (vehicles p) (Normal tt, drawn) in
    let p := set_markersRef drawn p in
    match c with
    | Normal _ => p
    | Throw _ => set_render_failed true p
    end
  else p.

(** The body of the updater that [handleVehicleUpdates] passes to
    [setVehicles]: copy the table, then [next.set(v.trip_id, v)] for every
    [v] of the batch. *)
Fixpoint set_each (updates : list value) (next : jsmap value) : completion (jsmap value) :=
  match updates with
  | [] => Normal next
  | v :: rest =>
      match get v "trip_id" with
      | Normal tripId => set_each rest (map_set tripId v next)
      | Throw e => Throw e
      end
  end.

Definition updater (updates : value) (prev : jsmap value) : completion (jsmap value) :=
  match iterate updates with
  | Normal vs => set_each vs prev
  | Throw e => Throw e
  end.

(** [setVehicles(updater)] and the render it causes: the new table is in
    place and, [vehicles] being a dependency of the marker effect, the
    effect runs.  An updater that throws does so while React renders. *)
Definition setVehicles (f : jsmap value -> completion (jsmap value)) (p : page) : page :=
  match f (vehicles p) with
  | Normal next => update_markers (set_vehicles next p)
  | Throw _ => set_render_failed true p
  end.

(** [handleVehicleUpdates], the callback the page hands to the hook. *)
Definition handleVehicleUpdates (updates : value) (s : world) : world :=
  with_pg (setVehicles (updater updates)) s.

(** [fetchInitialVehicles] once the REST snapshot [data] has arrived: a
    fresh [Map] is filled from [data.vehicles] and replaces the table.  The
    whole body sits in a [try]; what throws before [setVehicles] leaves the
    table alone. *)
Definition fetchInitialVehicles (data : value) (p : page) : page :=
  match (vs ← get data "vehicles"; elems ← iterate vs; set_each elems []) with
  | Normal vehicleMap => update_markers (set_vehicles vehicleMap p)
  | Throw _ => p
  end.

(** The count in the header of the page: [vehicles.size]. *)
Definition displayed_count (s : world) : nat := map_size (vehicles (pg s)).

(** ** Inbound frames *)

(** [event.data] by what [JSON.parse] makes of it: a syntax error, or a
    value. *)
Inductive frame : Type :=
  | Corrupt (data : string)
  | Json (data : value).

Definition JSON_parse (f : frame) : completion value :=
  match f with
  | Corrupt _ => Throw SyntaxError
  | Json v => Normal v
  end.

(** Statements of a handler: they act on the world and may throw; what was
    done before a throw stays done. *)
Definition stmt (A : Type) : Type := world -> completion A * world.

#[export] Instance stmt_ret : MRet stmt := fun A a s => (Normal a, s).

#[export] Instance stmt_bind : MBind stmt := fun A B k m s =>
  match m s with
  | (Normal a, s') => k a s'
  | (Throw e, s') => (Throw e, s')
  end.

Definition eval {A} (c : completion A) : stmt A := fun s => (c, s).

Definition exec (f : world -> world) : stmt unit := fun s => (Normal tt, f s).

(** [try { body } catch (e) { console.error(...) }] *)
Definition try_catch (body : stmt unit) : world -> world := fun s => snd (body s).

(** [message.type === name] *)
Definition is_type (ty : value) (name : string) : bool :=
  match ty with
  | VString t => String.eqb t name
  | _ => false
  end.

(** [ws.onmessage].  [onVehicleUpdates] is the callback in
    [onVehicleUpdatesRef], absent if the caller of the hook gave none. *)
Definition ws_onmessage (onVehicleUpdates : option (value -> world -> world))
    (event_data : frame) : world -> world :=
  try_catch (
    message ← eval (JSON_parse event_data);
    ty ← eval (get message "type");
    if is_type ty "vehicle_updates" then
      exec (fun s => setLastUpdate (Some (now (env s))) s);;
      vs ← eval (get message "vehicles");
      len ← eval (get vs "length");
      exec (setVehicleCount len);;
      match onVehicleUpdates with
      | Some callback =>
          vs ← eval (get message "vehicles");
          exec (callback vs)
      | None => mret tt
      end
    else if is_type ty "connected" then
      text ← eval (get message "message");
      eval (template text);;
      n ← eval (get message "vehicle_count");
      eval (template n);;
      n ← eval (get message "vehicle_count");
      exec (setVehicleCount n)
    else if is_type ty "bounds_set" then
      n ← eval (get message "vehicle_count");
      eval (template n);;
      n ← eval (get message "vehicle_count");
      exec (setVehicleCount n)
    else mret tt).

(** ** Events

    What can happen to a [LiveMap]:
    - [Mount], [Unmount]: the mounting effect of the hook runs, its cleanup
      runs (on unmount, when [autoConnect] changes, and both in a row
      under React's strict mode);
    - [MapReady]: the map exists; the page subscribes to its bounds and
      the marker effect runs;
    - [MoveEnd]: the user moved the map;
    - [InitialVehicles]: the REST snapshot arrived;
    - [Open], [Message], [Close]: events of a socket.  A message is
      delivered on an open socket only; a socket that fails reports
      [error] and [close] in one task, after its [readyState] became
      [CLOSED];
    - [Timer]: a pending timer that is due fires;
    - [Tick]: time passes. *)

Inductive event : Type :=
  | Mount
  | Unmount
  | MapReady (bounds : MapBounds)
  | MoveEnd (bounds : MapBounds)
  | InitialVehicles (data : value)
  | Open (h : nat)
  | Message (h : nat) (data : frame)
  | Close (h : nat) (failed : bool)
  | Timer (id : positive)
  | Tick (d : Z).

Definition timer_due (id : positive) (s : world) : bool :=
  existsb (fun t => Pos.eqb (fst t) id && Z.leb (snd t) (now (env s))) (timers (env s)).

Definition step (e : event) (s : world) : option world :=
  match e with
  | Mount => Some (mount s)
  | Unmount => Some (cleanup s)
  | MapReady bounds =>
      Some (with_pg (fun p => update_markers (set_mapReady true p))
              (subscribeToBounds bounds s))
  | MoveEnd bounds =>
      if mapReady (pg s) then Some (subscribeToBounds bounds s) else None
  | InitialVehicles data => Some (with_pg (fetchInitialVehicles data) s)
  | Open h =>
      match ready s h with
      | Some CONNECTING => Some (ws_onopen (update_socket h (set_readyState OPEN) s))
      | _ => None
      end
  | Message h data =>
      match ready s h with
      | Some OPEN => Some (ws_onmessage (Some handleVehicleUpdates) data s)
      | _ => None
      end
  | Close h failed =>
      match ready s h with
      | Some CLOSED | None => None
      | Some _ =>
          let s := update_socket h (set_readyState CLOSED) s in
          let s := if failed then ws_onerror s else s in
          Some (ws_onclose s)
      end
  | Timer id =>
      if timer_due id s then Some (reconnect (clearTimeout id s)) else None
  | Tick d =>
      if Z.leb 0 d then Some (with_env (fun b => set_now (now b + d) b) s) else None
  end.

Fixpoint run (es : list event) (s : world) : option world :=
  match es with
  | [] => Some s
  | e :: rest =>
      match step e s with
      | Some s' => run rest s'
      | None => None
      end
  end.

(** ** Well-typed frames *)

(** [VehiclePosition] as the hook declares it. *)
Record VehiclePosition : Type := {
  trip_id : string;
  route_id : string;
  direction_id : Q;
  vehicle_id : string;
  timestamp : Q;
  latitude : Q;
  longitude : Q;
  bearing : option Q;
  speed : option Q;
}.

Definition optional (name : string) (n : option Q) : list (string * value) :=
  match n with
  | Some q => [(name, VNumber q)]
  | None => []
  end.

(** The object [JSON.parse] builds for a record on the wire. *)
Definition vehicle_json (v : VehiclePosition) : value :=
  VObject ([("trip_id", VString (trip_id v));
            ("route_id", VString (route_id v));
            ("direction_id", VNumber (direction_id v));
            ("vehicle_id", VString (vehicle_id v));
            ("timestamp", VNumber (timestamp v));
            ("latitude", VNumber (latitude v));
            ("longitude", VNumber (longitude v))]
           ++ optional "bearing" (bearing v) ++ optional "speed" (speed v)).

(** A [vehicle_updates] frame that carries [batch]. *)
Definition vehicle_updates (ts : string) (batch : list VehiclePosition) : frame :=
  Json (VObject [("type", VString "vehicle_updates");
                 ("ts", VString ts);
                 ("vehicles", VArray (map vehicle_json batch))]).

(** The table after a well-typed batch: one [set] per record, in order. *)
Definition apply (batch : list VehiclePosition) (table : jsmap value) : jsmap value :=
  fold_left (fun next v => map_set (VString (trip_id v)) (vehicle_json v) next) batch table.

(** The table after a sequence of batches. *)
Definition apply_all (batches : list (list VehiclePosition)) (table : jsmap value)
  : jsmap value :=
  fold_left (fun t batch => apply batch t) batches table.

(** The last record of [l] for [tripId], if there is one. *)
Fixpoint latest (tripId : string) (l : list VehiclePosition) : option VehiclePosition :=
  match l with
  | [] => None
  | v :: rest =>
      match latest tripId rest with
      | Some w => Some w
      | None => if String.eqb (trip_id v) tripId then Some v else None
      end
  end.

(** ** Consecutive connection failures *)



(** A socket was constructed after [h]. *)
Definition superseded (s : world) (h : nat) : Prop :=
  (S h < length (sockets (env s)))%nat.

(** States the page can be in. *)
Definition reachable (s : world) : Prop :=
  exists t0 es, run es (initial t0) = Some s.

(** The page receives the batches one after the other. *)
Definition apply_calls (batches : list (list VehiclePosition)) (s : world) : world :=
  fold_left (fun s batch => handleVehicleUpdates (VArray (map vehicle_json batch)) s)
    batches s.

(** Events that neither request a viewport nor open a socket. *)
Definition quiet (e : event) : bool :=
  match e with
  | MapReady _ | MoveEnd _ | Open _ => false
  | _ => true
  end.

(** Events other than the arrival of the REST snapshot. *)
Definition from_feed (e : event) : bool :=
  match e with
  | InitialVehicles _ => false
  | _ => true
  end.

(** Sample data. *)
Definition sample (tripId : string) (ts : Q) (heading : option Q) : VehiclePosition :=
  {| trip_id := tripId; route_id := "46A"; direction_id := 0; vehicle_id := "bus-" ++ tripId;
     timestamp := ts; latitude := 53.35; longitude := -6.26;
     bearing := heading; speed := None |}.

Definition dublin : MapBounds := {| north := 53.4; south := 53.3; east := -6.2; west := -6.3 |}.
Definition howth : MapBounds := {| north := 53.41; south := 53.36; east := -6.04; west := -6.12 |}.

(** The socket an event comes from. *)
Definition source (e : event) : option nat :=
  match e with
  | Open h | Message h _ | Close h _ => Some h
  | _ => None
  end.

(** The state after the events [es], from the initial state at time 0. *)
Definition after (es : list event) : world := default (initial 0) (run es (initial 0)).

(** Mounted, the socket open. *)
Definition live : world := after [Mount; Open 0%nat].

(** The mounting effect ran, was cleaned up and ran again (as under React's
    strict mode): socket 0 is closing, socket 1 is in [wsRef]. *)
Definition remounted : world := after [Mount; Unmount; Mount].

(** Then socket 0 reports its close, socket 1 opens, and the reconnect that
    the close scheduled fires and constructs socket 2 over socket 1. *)
Definition two_feeds : world :=
  after [Mount; Unmount; Mount; Close 0%nat true; Open 1%nat; Tick 3000; Timer 1%positive].

(** The distinct trip ids of a list of records, in order of first
    appearance. *)
Definition add_id (tripId : string) (seen : list string) : list string :=
  if bool_decide (tripId ∈ seen) then seen else seen ++ [tripId].

Definition distinct_ids (l : list VehiclePosition) : list string :=
  fold_left (fun seen v => add_id (trip_id v) seen) l [].

(** ** Statements the code is checked against *)

(** "[connect()] is a no-op when the connection is already Connected or
    Connecting." *)
Definition connect_is_noop_when_live : Prop :=
  forall (s : world) (h : nat),
    wsRef (hk s) = Some h ->
    ready s h = Some OPEN \/ ready s h = Some CONNECTING ->
    connect s = s.

(** "Once a handle has been superseded, no message, open or close callback
    from it mutates the connection state, the vehicle table, or schedules a
    reconnect." *)
Definition stale_callbacks_are_inert : Prop :=
  forall (s s' : world) (h : nat) (e : event),
    reachable s ->
    superseded s h ->
    source e = Some h ->
    step e s = Some s' ->
    hk s' = hk s /\ pg s' = pg s /\ timers (env s') = timers (env s).

(** "After every processed [vehicle_updates] frame, the vehicle count
    exposed to observers equals the current size of the vehicle table." *)
Definition count_is_table_size : Prop :=
  forall (s s' : world) (h : nat) (ts : string) (batch : list VehiclePosition),
    reachable s ->
    step (Message h (vehicle_updates ts batch)) s = Some s' ->
    vehicleCount (hk s') = of_nat (map_size (vehicles (pg s'))).

(** "A vehicle that reported once and is missing from a later batch,
    applied past the staleness horizon, is in [toRemove]."  The horizon is
    in seconds; the later batch is past it both by the clock and by the
    timestamps of its records. *)
Definition stale_vehicles_are_removed (horizon : Z) : Prop :=
  forall (s s1 s2 : world) (h : nat) (ts1 ts2 : string)
         (first later : list VehiclePosition) (a : VehiclePosition) (d : Z),
    reachable s ->
    In a first ->
    Forall (fun v => trip_id v <> trip_id a) later ->
    Forall (fun v => (timestamp a + inject_Z horizon < timestamp v)%Q) later ->
    1000 * horizon < d ->
    step (Message h (vehicle_updates ts1 first)) s = Some s1 ->
    run [Tick d; Message h (vehicle_updates ts2 later)] s1 = Some s2 ->
    In (VString (trip_id a)) (toRemove (vehicles (pg s2)) (markersRef (pg s1))).

Definition is_array (v : value) : bool :=
  match v with
  | VArray _ => true
  | _ => false
  end.

(** "A frame of type [vehicle_updates] whose [vehicles] is absent or not an
    array advances [lastUpdate] and nothing else." *)
Definition bad_batch_only_moves_lastUpdate : Prop :=
  forall (s s' : world) (h : nat) (props : list (string * value)),
    own_property props "type" = VString "vehicle_updates" ->
    is_array (own_property props "vehicles") = false ->
    step (Message h (Json (VObject props))) s = Some s' ->
    s' = setLastUpdate (Some (now (env s))) s.

(** A table entry whose properties can be read: anything but [undefined]
    and [null]. *)
Definition can_read (v : value) : bool :=
  match v with
  | VUndefined | VNull => false
  | _ => true
  end.

Definition readable (table : jsmap value) : Prop :=
  Forall (fun entry => can_read (snd entry) = true) table.

(** ** More of the hook and the page *)

(** The page asks for one viewport after the other. *)
Definition request_all (requests : list MapBounds) (s : world) : world :=
  fold_left (fun s bounds => subscribeToBounds bounds s) requests s.

(** The three values of [message.type] that [ws.onmessage] acts on; [pong]
    and everything else fall through the [switch]. *)
Definition handled_type (ty : value) : bool :=
  is_type ty "vehicle_updates" || is_type ty "connected" || is_type ty "bounds_set".

(** Events other than the opening of a socket. *)
Definition not_open (e : event) : bool :=
  match e with
  | Open _ => false
  | _ => true
  end.

(** [wsRef], when set, holds the socket constructed last. *)
Definition newest_in_ref (s : world) : Prop :=
  forall h, wsRef (hk s) = Some h -> S h = length (sockets (env s)).

(** A socket whose [close] event has been delivered. *)
Definition is_closed (w : WebSocket) : bool :=
  match readyState w with
  | CLOSED => true
  | _ => false
  end.

Definition closed_sockets (s : world) : nat :=
  length (List.filter is_closed (sockets (env s))).

(** Pending reconnects: none is due later than 3000 ms from now, and they
    are no more than the sockets that have closed. *)
Definition reconnects_in_order (s : world) : Prop :=
  Forall (fun t => snd t <= now (env s) + 3000) (timers (env s))
  /\ (length (timers (env s)) <= closed_sockets s)%nat.

(** What an operation of the hook does to the browser, as far as the
    invariants look: the count of sockets, of closed sockets and of pending
    timers, the clock, and which timers are pending. *)
Record browser_summary (s s' : world) : Prop := {
  same_now : now (env s') = now (env s);
  same_length : length (sockets (env s')) = length (sockets (env s));
  same_closed : closed_sockets s' = closed_sockets s;
  fewer_timers : (length (timers (env s')) <= length (timers (env s)))%nat;
  old_timers : forall t, In t (timers (env s')) -> In t (timers (env s));
}.

(** [v.name] where [v] is a table entry, of which properties can be read. *)
Definition prop (v : value) (name : string) : value :=
  match get v name with
  | Normal x => x
  | Throw _ => VUndefined
  end.

(** The marker the effect leaves for a table entry [vehicle]: position and
    icon are the entry's, the popup is that of the marker that was there,
    or built from the entry if there was none. *)
Definition marker_for (vehicle : value) (existingMarker : option marker) : marker :=
  {| latlng := (prop vehicle "latitude", prop vehicle "longitude");
     icon := prop vehicle "bearing";
     popup := match existingMarker with
              | Some m => popup m
              | None => vehicle
              end |}.

(** Events as the types of the code declare them: a frame is a position
    batch of [VehiclePosition]s, or it does not parse, or it is of another
    type; the snapshot carries an array of [VehiclePosition]s. *)
Definition well_typed (e : event) : Prop :=
  match e with
  | Message _ data =>
      (exists ts batch, data = vehicle_updates ts batch)
      \/ (forall message ty,
            data = Json message -> get message "type" = Normal ty ->
            is_type ty "vehicle_updates" = false)
  | InitialVehicles data =>
      exists batch, get data "vehicles" = Normal (VArray (map vehicle_json batch))
  | _ => True
  end.

(** A table whose keys are trip ids, each once, and whose entries can be
    read. *)
Definition keyed_by_trip (table : jsmap value) : Prop :=
  (exists ids, map_keys table = map VString ids /\ List.NoDup ids) /\ readable table.

(** The markers show the table: one marker per trip id of the table, at
    the position and with the bearing of its entry. *)
Definition markers_show (table : jsmap value) (drawn : jsmap marker) : Prop :=
  forall tripId,
    match map_get (VString tripId) table with
    | Some vehicle =>
        exists m, map_get (VString tripId) drawn = Some m
                  /\ latlng m = (prop vehicle "latitude", prop vehicle "longitude")
                  /\ icon m = prop vehicle "bearing"
    | None => map_get (VString tripId) drawn = None
    end.

Definition mirrors (p : page) : Prop :=
  keyed_by_trip (vehicles p)
  /\ if mapReady p then markers_show (vehicles p) (markersRef p) else markersRef p = [].

(** ** The cards: [ArrivalCard] and [ETACard]

    Seconds are whole numbers, as the REST service sends them.  The code
    computes with doubles.  Comparisons, [%] and [Math.abs] are exact on
    whole numbers of any size.  The division is not: [n / 60] is the
    nearest double to the quotient.  For [n] up to [exact] in size that
    double is within 2^-10 of the quotient, which is itself a whole number
    or a half, or else at least 1/60 away from both; so [Math.floor] and
    [Math.round] of it are the integer quotients, and [`${n}`] prints the
    decimal numeral of [n].  For larger [n] the quotient is rounded and the
    numeral shortened; what the code gives there is not worked out but
    left open, as a [Doubles], of which nothing is assumed. *)

Module Cards.

Definition exact : Z := 1000000000000000.

Definition is_exact (n : Z) : bool := (Z.abs n <=? exact)%Z.

(** What the double arithmetic gives for a whole number beyond [exact]:
    [Math.floor(n / 60)], [Math.round(n / 60)], both whole numbers, and
    [`${n}`]. *)
Record Doubles : Type := {
  floor_beyond : Z -> Z;
  round_beyond : Z -> Z;
  show_beyond : Z -> string;
}.

(** The arithmetic without rounding, to run the cards with. *)
Definition unrounded : Doubles :=
  {| floor_beyond := fun n => n / 60;
     round_beyond := fun n => (n + 30) / 60;
     show_beyond := pretty |}.

Section Cards.
Variable fp : Doubles.

(** [Math.floor(n / 60)] *)
Definition floor_div60 (n : Z) : Z :=
  if is_exact n then n / 60 else floor_beyond fp n.

(** [Math.round(n / 60)]: halves go up. *)
Definition round_div60 (n : Z) : Z :=
  if is_exact n then (n + 30) / 60 else round_beyond fp n.

(** [`${n}`] *)
Definition show (n : Z) : string :=
  if is_exact n then pretty n else show_beyond fp n.

(** [formatCountdown], the same function in both cards. *)
Definition formatCountdown (seconds : Z) : string :=
  if (seconds <=? 60)%Z then "Due"
  else
    let minutes := floor_div60 seconds in
    if (minutes <? 60)%Z then show minutes ++ " min"
    else
      let hours := floor_div60 minutes in
      let remainingMinutes := minutes mod 60 in
      show hours ++ "h " ++ show remainingMinutes ++ "m".

(** [getCountdownColor] of [ArrivalCard]. *)
Definition getCountdownColor (seconds : Z) : string :=
  if (seconds <=? 120)%Z then "text-green-400"
  else if (seconds <=? 300)%Z then "text-yellow-400"
  else "text-white".

(** [isDue] of both cards: [etaSeconds <= 60]. *)
Definition isDue (etaSeconds : Z) : bool := (etaSeconds <=? 60)%Z.

(** What [ArrivalCard] puts in the countdown: the literal "Due" when
    [isDue], else [formatCountdown]. *)
Definition countdown_text (etaSeconds : Z) : string :=
  if isDue etaSeconds then "Due" else formatCountdown etaSeconds.

(** [formatDelay] of [ETACard]. *)
Definition formatDelay (seconds : Z) : string :=
  if (seconds =? 0)%Z then "On time"
  else
    let minutes := round_div60 seconds in
    if (0 <? minutes)%Z then show minutes ++ " min late"
    else show (Z.abs minutes) ++ " min early".

(** The colour [ETACard] gives the delay:
    [predictedDelayS > 0 ? 'text-yellow-400' : 'text-green-400']. *)
Definition delay_color (predictedDelayS : Z) : string :=
  if (0 <? predictedDelayS)%Z then "text-yellow-400" else "text-green-400".

End Cards.
End Cards.

(** ** The generic request hook [useApi]

    [execute] sets the state before the request and again when it settles;
    several calls may be in flight, and they settle in any order. *)

Module UseApi.
Section UseApi.
Context {T : Type}.

Record UseApiState : Type := {
  data : option T;
  loading : bool;
  error : option string;
}.

Definition initial : UseApiState := {| data := None; loading := false; error := None |}.

(** What was thrown: an [Error] with its message, or something else. *)
Inductive thrown : Type :=
  | Error (message : string)
  | NotAnError.

(** [err instanceof Error ? err.message : 'An error occurred'] *)
Definition errorMessage (err : thrown) : string :=
  match err with
  | Error message => message
  | NotAnError => "An error occurred"
  end.

(** [Execute]: a call of [execute], up to its [await]; [Resolved] and
    [Rejected]: a request settles; [Reset]: a call of [reset].  A resolved
    request may bring [null]. *)
Inductive event : Type :=
  | Execute
  | Resolved (result : option T)
  | Rejected (err : thrown)
  | Reset.

Definition step (e : event) (s : UseApiState) : UseApiState :=
  match e with
  | Execute => {| data := None; loading := true; error := None |}
  | Resolved result => {| data := result; loading := false; error := None |}
  | Rejected err => {| data := None; loading := false; error := Some (errorMessage err) |}
  | Reset => {| data := None; loading := false; error := None |}
  end.

Definition run (es : list event) (s : UseApiState) : UseApiState :=
  fold_left (fun s e => step e s) es s.

End UseApi.
Arguments UseApiState T : clear implicits.
Arguments event T : clear implicits.
End UseApi.

(** ** The page [LiveTracking], the other user of the hook

    Its callback looks for one vehicle in each batch.  Batches are taken at
    their declared type.  [toISOString] stands for
    [new Date(ms).toISOString()], which throws a [RangeError] outside the
    range of [Date]. *)

Module LiveTracking.
Section LiveTracking.
Variable toISOString : Q -> completion string.

(** [found.bearing] and [found.speed] of a record of the feed. *)
Definition found_bearing (found : VehiclePosition) : option Q := bearing found.
Definition found_speed (found : VehiclePosition) : option Q := speed found.

Record VehicleTracking : Type := {
  vehicleId : string;
  routeId : string;
  tripId : string;
  lat : Q;
  lon : Q;
  bearing : option Q;
  speed : option Q;
  lastUpdate : string;
}.

(** The state of the page that the feed touches. *)
Record tracking : Type := {
  trackingIdRef : option string;
  vehicle : option VehicleTracking;
  noVehicleData : bool;
}.

(** [v.trip_id === targetId || v.vehicle_id === targetId] *)
Definition is_target (targetId : string) (v : VehiclePosition) : bool :=
  String.eqb (trip_id v) targetId || String.eqb (vehicle_id v) targetId.

(** The object handed to [setVehicle]; building it throws if the timestamp
    is no date. *)
Definition tracked (found : VehiclePosition) : completion VehicleTracking :=
  iso ← toISOString (timestamp found * 1000)%Q;
  mret {| vehicleId := vehicle_id found; routeId := route_id found;
          tripId := trip_id found; lat := latitude found; lon := longitude found;
          bearing := found_bearing found; speed := found_speed found;
          lastUpdate := iso |}.

Definition show_vehicle (found : VehiclePosition) (t : tracking)
  : completion unit * tracking :=
  match tracked found with
  | Normal v =>
      (Normal tt,
       {| trackingIdRef := trackingIdRef t; vehicle := Some v; noVehicleData := false |})
  | Throw e => (Throw e, t)
  end.

(** [handleVehicleUpdates]: nothing without a target id ([undefined] or
    the empty string); else the first record of the batch that carries the
    id as trip id or as vehicle id is shown. *)
Definition handleVehicleUpdates (updates : list VehiclePosition) (t : tracking)
  : completion unit * tracking :=
  match trackingIdRef t with
  | None | Some "" => (Normal tt, t)
  | Some targetId =>
      match List.find (is_target targetId) updates with
      | Some found => show_vehicle found t
      | None => (Normal tt, t)
      end
  end.

(** The REST lookup for [trackingId] settles: with a body whose
    [vehicles] may be missing, or with a failure.  A throw inside [then]
    lands in [catch]. *)
Inductive lookup : Type :=
  | Body (vehicles : option (list VehiclePosition))
  | Failed.

Definition set_noVehicleData (t : tracking) : tracking :=
  {| trackingIdRef := trackingIdRef t; vehicle := vehicle t; noVehicleData := true |}.

Definition lookup_settled (trackingId : string) (r : lookup) (t : tracking) : tracking :=
  match r with
  | Body (Some vehicles) =>
      match List.find (is_target trackingId) vehicles with
      | Some found =>
          match show_vehicle found t with
          | (Normal _, t') => t'
          | (Throw _, _) => set_noVehicleData t
          end
      | None => set_noVehicleData t
      end
  | Body None => set_noVehicleData t
  | Failed => set_noVehicleData t
  end.

(** What reaches the page: a batch through the hook (an exception of the
    callback ends in the [catch] of [ws.onmessage]), or the lookup. *)
Inductive event : Type :=
  | Batch (updates : list VehiclePosition)
  | Lookup (trackingId : string) (r : lookup).

Definition step (e : event) (t : tracking) : tracking :=
  match e with
  | Batch updates => snd (handleVehicleUpdates updates t)
  | Lookup trackingId r => lookup_settled trackingId r t
  end.

Definition run (es : list event) (t : tracking) : tracking :=
  fold_left (fun t e => step e t) es t.

(** The notice "no live GPS data yet" is rendered when
    [noVehicleData && !vehicle]. *)
Definition notice_shown (t : tracking) : bool :=
  noVehicleData t && match vehicle t with Some _ => false | None => true end.

End LiveTracking.
End LiveTracking.

(** * Properties *)

(** ** The [Map] model *)

Section MapFacts.
Context {V : Type}.
Implicit Types (m : jsmap V) (k : value) (a b : string).

Lemma map_get_set_string a b (v : V) m :
  map_get (VString a) (map_set (VString b) v m)
  = if String.eqb b a then Some v else map_get (VString a) m.
Proof.
  induction m as [|[k' v'] rest IH]; simpl.
  - rewrite String.eqb_sym. reflexivity.
  - destruct k' as [| |x|x|c|x|x]; simpl; try exact IH.
    destruct (String.eqb c b) eqn:Ecb; simpl.
    + apply String.eqb_eq in Ecb. subst c.
      destruct (String.eqb b a); reflexivity.
    + destruct (String.eqb c a) eqn:Eca.
      * apply String.eqb_eq in Eca. subst c. rewrite String.eqb_sym, Ecb. reflexivity.
      * exact IH.
Qed.

Lemma map_has_set_mono k k' (v : V) m :
  map_has k m = true -> map_has k (map_set k' v m) = true.
Proof.
  unfold map_has. induction m as [|[k0 v0] rest IH]; simpl; [discriminate|].
  destruct (same_value_zero k0 k') eqn:E0; simpl;
    destruct (same_value_zero k0 k); auto.
Qed.

Lemma map_size_set k (v : V) m :
  map_size (map_set k v m) = if map_has k m then map_size m else S (map_size m).
Proof.
  unfold map_has, map_size. induction m as [|[k0 v0] rest IH]; simpl; [reflexivity|].
  destruct (same_value_zero k0 k); simpl; [reflexivity|].
  rewrite IH. destruct (map_get k rest); reflexivity.
Qed.

End MapFacts.

(** ** The table *)

Lemma trip_id_of_vehicle_json (v : VehiclePosition) :
  get (vehicle_json v) "trip_id" = Normal (VString (trip_id v)).
Proof. reflexivity. Qed.

(** On a well-typed batch the updater is [apply]. *)
Lemma set_each_apply (batch : list VehiclePosition) (table : jsmap value) :
  set_each (map vehicle_json batch) table = Normal (apply batch table).
Proof.
  revert table. induction batch as [|v rest IH]; intros table; [reflexivity|].
  cbn [map set_each]. rewrite trip_id_of_vehicle_json. apply IH.
Qed.

Lemma updater_apply (batch : list VehiclePosition) (table : jsmap value) :
  updater (VArray (map vehicle_json batch)) table = Normal (apply batch table).
Proof. apply set_each_apply. Qed.

Lemma latest_app (tripId : string) (l1 l2 : list VehiclePosition) :
  latest tripId (l1 ++ l2)
  = match latest tripId l2 with
    | Some w => Some w
    | None => latest tripId l1
    end.
Proof.
  induction l1 as [|v rest IH]; simpl.
  - destruct (latest tripId l2); reflexivity.
  - rewrite IH. destruct (latest tripId l2); reflexivity.
Qed.

Lemma latest_In (tripId : string) (l : list VehiclePosition) (v : VehiclePosition) :
  In v l -> trip_id v = tripId -> exists w, latest tripId l = Some w.
Proof.
  induction l as [|x rest IH]; simpl; [tauto|].
  intros [->|Hin] Hid.
  - destruct (latest tripId rest); [eauto|].
    rewrite Hid, String.eqb_refl. eauto.
  - destruct (IH Hin Hid) as [w ->]. eauto.
Qed.

Lemma map_get_apply (tripId : string) (batch : list VehiclePosition) (table : jsmap value) :
  map_get (VString tripId) (apply batch table)
  = match latest tripId batch with
    | Some w => Some (vehicle_json w)
    | None => map_get (VString tripId) table
    end.
Proof.
  revert table. induction batch as [|v rest IH]; intros table; [reflexivity|].
  cbn [apply fold_left latest]. fold (apply rest (map_set (VString (trip_id v)) (vehicle_json v) table)).
  rewrite IH. destruct (latest tripId rest); [reflexivity|].
  rewrite map_get_set_string. destruct (String.eqb (trip_id v) tripId); reflexivity.
Qed.

Lemma apply_all_concat (batches : list (list VehiclePosition)) (table : jsmap value) :
  apply_all batches table = apply (concat batches) table.
Proof.
  revert table. induction batches as [|b rest IH]; intros table; [reflexivity|].
  cbn [apply_all fold_left concat]. fold (apply_all rest (apply b table)).
  rewrite IH. unfold apply. rewrite fold_left_app. reflexivity.
Qed.

(** ** The marker effect leaves the table alone *)

Lemma update_markers_vehicles (p : page) : vehicles (update_markers p) = vehicles p.
Proof.
  unfold update_markers. destruct (mapReady p); [|reflexivity].
  destruct (fold_left _ _ _) as [[u|e] drawn]; reflexivity.
Qed.

Lemma update_markers_mapReady (p : page) : mapReady (update_markers p) = mapReady p.
Proof.
  unfold update_markers. destruct (mapReady p) eqn:E; [|exact E].
  destruct (fold_left _ _ _) as [[u|e] drawn]; exact E.
Qed.

(** What [handleVehicleUpdates] does with a well-typed batch. *)
Lemma handleVehicleUpdates_batch (batch : list VehiclePosition) (s : world) :
  handleVehicleUpdates (VArray (map vehicle_json batch)) s
  = with_pg (fun p => update_markers (set_vehicles (apply batch (vehicles p)) p)) s.
Proof.
  unfold handleVehicleUpdates, setVehicles, with_pg. rewrite updater_apply. reflexivity.
Qed.

Lemma handleVehicleUpdates_vehicles (batch : list VehiclePosition) (s : world) :
  vehicles (pg (handleVehicleUpdates (VArray (map vehicle_json batch)) s))
  = apply batch (vehicles (pg s)).
Proof. rewrite handleVehicleUpdates_batch. cbn. apply update_markers_vehicles. Qed.

Lemma apply_calls_vehicles (batches : list (list VehiclePosition)) (s : world) :
  vehicles (pg (apply_calls batches s)) = apply_all batches (vehicles (pg s)).
Proof.
  revert s. induction batches as [|b rest IH]; intros s; [reflexivity|].
  cbn [apply_calls apply_all fold_left].
  fold (apply_calls rest (handleVehicleUpdates (VArray (map vehicle_json b)) s)).
  fold (apply_all rest (apply b (vehicles (pg s)))).
  rewrite IH, handleVehicleUpdates_vehicles. reflexivity.
Qed.

Lemma latest_split (before after : list VehiclePosition) (w : VehiclePosition) :
  Forall (fun v => trip_id v <> trip_id w) after ->
  latest (trip_id w) (before ++ w :: after) = Some w.
Proof.
  intros Hafter. rewrite latest_app. cbn [latest].
  assert (latest (trip_id w) after = None) as ->.
  { induction Hafter as [|v rest Hv _ IH]; [reflexivity|].
    cbn [latest]. rewrite IH.
    destruct (String.eqb (trip_id v) (trip_id w)) eqn:E; [|reflexivity].
    apply String.eqb_eq in E. contradiction. }
  rewrite String.eqb_refl. reflexivity.
Qed.

Lemma latest_none (tripId : string) (l : list VehiclePosition) :
  Forall (fun v => trip_id v <> tripId) l -> latest tripId l = None.
Proof.
  induction 1 as [|v rest Hv _ IH]; [reflexivity|].
  cbn [latest]. rewrite IH.
  destruct (String.eqb (trip_id v) tripId) eqn:E; [|reflexivity].
  apply String.eqb_eq in E. contradiction.
Qed.

(** C3.  Starting from the empty table, after any sequence of batches the
    table maps the trip id of a record to that whole record exactly when no
    later record carries the same trip id (last write wins); a field the
    latest record lacks is absent from the table entry, whatever earlier
    records held; a trip id that never occurred is no key. *)
Theorem table_is_last_write_wins
    (batches : list (list VehiclePosition)) (s : world)
    (before after : list VehiclePosition) (w : VehiclePosition) :
  vehicles (pg s) = [] ->
  concat batches = before ++ w :: after ->
  Forall (fun v => trip_id v <> trip_id w) after ->
  let table := vehicles (pg (apply_calls batches s)) in
  map_get (VString (trip_id w)) table = Some (vehicle_json w)
  /\ (bearing w = None ->
      forall stored, map_get (VString (trip_id w)) table = Some stored ->
                     get stored "bearing" = Normal VUndefined)
  /\ (forall tripId, Forall (fun v => trip_id v <> tripId) (concat batches) ->
                     map_get (VString tripId) table = None).
Proof.
  intros Hempty Hsplit Hafter table.
  assert (Hlookup : forall tripId,
    map_get (VString tripId) table = vehicle_json <$> latest tripId (concat batches)).
  { intros tripId. unfold table.
    rewrite apply_calls_vehicles, apply_all_concat, map_get_apply, Hempty.
    destruct (latest tripId (concat batches)); reflexivity. }
  assert (Hw : map_get (VString (trip_id w)) table = Some (vehicle_json w)).
  { rewrite Hlookup, Hsplit, latest_split by assumption. reflexivity. }
  split; [exact Hw|]. split.
  - intros Hb stored Hstored. rewrite Hw in Hstored. injection Hstored as <-.
    unfold vehicle_json. rewrite Hb. destruct (speed w); reflexivity.
  - intros tripId Hnone. rewrite Hlookup, latest_none by assumption. reflexivity.
Qed.

Lemma table_is_last_write_wins_witness :
  map_get (VString "A")
    (vehicles (pg (apply_calls
       [[sample "A" 10 (Some 90%Q); sample "B" 10 None]; [sample "A" 20 None]]
       (initial 0))))
  = Some (vehicle_json (sample "A" 20 None)).
Proof.
  apply (table_is_last_write_wins
           [[sample "A" 10 (Some 90%Q); sample "B" 10 None]; [sample "A" 20 None]]
           (initial 0)
           [sample "A" 10 (Some 90%Q); sample "B" 10 None] [] (sample "A" 20 None)).
  - reflexivity.
  - reflexivity.
  - constructor.
Defined.

(** ** The sample states are reached by their events *)

Lemma live_reachable : run [Mount; Open 0%nat] (initial 0) = Some live.
Proof. reflexivity. Qed.

Lemma remounted_reachable : run [Mount; Unmount; Mount] (initial 0) = Some remounted.
Proof. reflexivity. Qed.

Lemma two_feeds_reachable :
  run [Mount; Unmount; Mount; Close 0%nat true; Open 1%nat; Tick 3000; Timer 1%positive]
    (initial 0) = Some two_feeds.
Proof. vm_compute. reflexivity. Qed.

(** In [two_feeds] sockets 1 and 2 are both alive, and [wsRef] holds 2. *)
Example two_feeds_sockets :
  map readyState (sockets (env two_feeds)) = [CLOSED; OPEN; CONNECTING]
  /\ wsRef (hk two_feeds) = Some 2%nat.
Proof. split; reflexivity. Qed.

(** ** The hook *)

Ltac open_world s :=
  destruct s as [[?now ?sockets ?timers ?next] [?ws ?timeout ?pending ?conn ?count ?err ?upd]
                   [?table ?drawn ?ready ?failed]].

(** A frame changes no socket, no timer and no ref, whatever it holds: it
    can only move [lastUpdate] and [vehicleCount] (and, through the
    callback, the page). *)
Lemma ws_onmessage_frame (data : frame) (s : world) :
  let s' := ws_onmessage (Some handleVehicleUpdates) data s in
  env s' = env s
  /\ wsRef (hk s') = wsRef (hk s)
  /\ reconnectTimeoutRef (hk s') = reconnectTimeoutRef (hk s)
  /\ pendingBoundsRef (hk s') = pendingBoundsRef (hk s)
  /\ connected (hk s') = connected (hk s)
  /\ error (hk s') = error (hk s).
Proof.
  unfold ws_onmessage, try_catch, mbind, stmt_bind, mret, stmt_ret, eval, exec.
  destruct data as [raw|message]; cbn; [tauto|].
  destruct (get message "type") as [ty|]; cbn; [|tauto].
  destruct (is_type ty "vehicle_updates"); cbn.
  { destruct (get message "vehicles") as [vs|]; cbn; [|tauto].
    destruct (get vs "length") as [len|]; cbn; [|tauto].
    tauto. }
  destruct (is_type ty "connected"); cbn.
  { destruct (get message "message") as [text|]; cbn; [|tauto].
    destruct (template text); cbn; [|tauto].
    destruct (get message "vehicle_count") as [n|]; cbn; [|tauto].
    destruct (template n); cbn; tauto. }
  destruct (is_type ty "bounds_set"); cbn; [|tauto].
  destruct (get message "vehicle_count") as [n|]; cbn; [|tauto].
  destruct (template n); cbn; tauto.
Qed.

(** ** The pending viewport *)

Lemma connect_pending (s : world) :
  pendingBoundsRef (hk (connect s)) = pendingBoundsRef (hk s).
Proof.
  unfold connect. destruct (current_is_open s); [reflexivity|].
  destruct (reconnectTimeoutRef (hk s)); reflexivity.
Qed.

Lemma cleanup_pending (s : world) :
  pendingBoundsRef (hk (cleanup s)) = pendingBoundsRef (hk s).
Proof.
  unfold cleanup.
  destruct (reconnectTimeoutRef (hk s)); cbn; destruct (wsRef (hk s)); reflexivity.
Qed.

Lemma quiet_step_pending (e : event) (s s' : world) :
  quiet e = true -> step e s = Some s' ->
  pendingBoundsRef (hk s') = pendingBoundsRef (hk s).
Proof.
  destruct e as [| |b|b|snapshot|h|h data|h failed|id|d]; cbn [quiet step];
    try discriminate; intros _.
  - intros [= <-]. apply connect_pending.
  - intros [= <-]. apply cleanup_pending.
  - intros [= <-]. reflexivity.
  - destruct (ready s h) as [[]|]; try discriminate.
    intros [= <-]. apply ws_onmessage_frame.
  - destruct (ready s h) as [[]|]; try discriminate;
      intros [= <-]; destruct failed; reflexivity.
  - destruct (timer_due id s); [|discriminate].
    intros [= <-]. unfold reconnect. rewrite connect_pending. reflexivity.
  - destruct (Z.leb 0 d); [|discriminate]. intros [= <-]. reflexivity.
Qed.

Lemma quiet_run_pending (es : list event) (s s' : world) :
  forallb quiet es = true -> run es s = Some s' ->
  pendingBoundsRef (hk s') = pendingBoundsRef (hk s).
Proof.
  revert s. induction es as [|e rest IH]; intros s; cbn [forallb run].
  - intros _ [= <-]. reflexivity.
  - intros Hq. apply andb_prop in Hq as [He Hrest].
    destruct (step e s) as [s1|] eqn:E; [|discriminate].
    intros Hrun. rewrite (IH _ Hrest Hrun). eapply quiet_step_pending; eassumption.
Qed.

(** When the socket in [wsRef] opens with a viewport pending, that viewport
    is sent on it, once, and the slot is emptied. *)
Lemma open_flushes_pending (s : world) (h : nat) (w : WebSocket) (bounds : MapBounds) :
  wsRef (hk s) = Some h ->
  sockets (env s) !! h = Some w ->
  readyState w = CONNECTING ->
  pendingBoundsRef (hk s) = Some bounds ->
  exists s',
    step (Open h) s = Some s'
    /\ sockets (env s')
       = <[h := {| readyState := OPEN; sent := sent w ++ [subscribe_bounds bounds] |}]>
           (sockets (env s))
    /\ pendingBoundsRef (hk s') = None
    /\ connected (hk s') = true.
Proof.
  open_world s. cbn in *. intros -> Hw Hconn ->.
  unfold step, ready. cbn. rewrite Hw. cbn. rewrite Hconn.
  eexists. split; [reflexivity|].
  unfold ws_onopen, sendBounds, ready. cbn.
  rewrite list_lookup_alter_eq, Hw. cbn.
  repeat split.
  rewrite list_alter_alter_eq, list_insert_alter.
  apply list_alter_ext; [|reflexivity]. intros x Hx.
  rewrite Hw in Hx. injection Hx as <-. reflexivity.
Qed.

(** Where the socket that opens is the one held in [wsRef], the pending
    viewport is delivered.  Two viewport requests while the socket in
    [wsRef] is not open leave the second one in the pending slot and send
    nothing.  Whatever happens next short of another request or an open
    (closes, reconnects, frames, time), once the socket in [wsRef] opens,
    exactly one [subscribe_bounds] goes out on it, it carries the second
    viewport, and the slot is empty. *)
Theorem pending_bounds_last_write_wins
    (s s' : world) (B1 B2 : MapBounds) (es : list event) (h : nat) (w : WebSocket) :
  current_is_open s = false ->
  forallb quiet es = true ->
  run es (subscribeToBounds B2 (subscribeToBounds B1 s)) = Some s' ->
  wsRef (hk s') = Some h ->
  sockets (env s') !! h = Some w ->
  readyState w = CONNECTING ->
  let s2 := subscribeToBounds B2 (subscribeToBounds B1 s) in
  pendingBoundsRef (hk s2) = Some B2
  /\ env s2 = env s
  /\ exists s3,
       step (Open h) s' = Some s3
       /\ sockets (env s3)
          = <[h := {| readyState := OPEN; sent := sent w ++ [subscribe_bounds B2] |}]>
              (sockets (env s'))
       /\ pendingBoundsRef (hk s3) = None.
Proof.
  intros Hclosed Hquiet Hrun Hws Hw Hconn s2.
  assert (Hs2 : s2 = with_hk (set_pendingBoundsRef (Some B2)) s).
  { unfold s2, subscribeToBounds. rewrite Hclosed.
    assert (current_is_open (with_hk (set_pendingBoundsRef (Some B1)) s) = false) as ->
      by exact Hclosed.
    open_world s. reflexivity. }
  split; [rewrite Hs2; reflexivity|].
  split; [rewrite Hs2; reflexivity|].
  assert (Hpending : pendingBoundsRef (hk s') = Some B2).
  { rewrite (quiet_run_pending es s2 s' Hquiet Hrun), Hs2. reflexivity. }
  destruct (open_flushes_pending s' h w B2 Hws Hw Hconn Hpending) as (s3 & H1 & H2 & H3 & _).
  exists s3. auto.
Qed.

Lemma pending_bounds_last_write_wins_witness :
  exists s3,
    run [Close 0%nat true; Tick 3000; Timer 1%positive; Open 1%nat]
      (subscribeToBounds howth (subscribeToBounds dublin (mount (initial 0))))
    = Some s3
    /\ sockets (env s3) = [{| readyState := CLOSED; sent := [] |};
                           {| readyState := OPEN; sent := [subscribe_bounds howth] |}]
    /\ pendingBoundsRef (hk s3) = None.
Proof.
  destruct (pending_bounds_last_write_wins (mount (initial 0))
              (default (initial 0)
                 (run [Close 0%nat true; Tick 3000; Timer 1%positive]
                    (subscribeToBounds howth (subscribeToBounds dublin (mount (initial 0))))))
              dublin howth [Close 0%nat true; Tick 3000; Timer 1%positive] 1%nat
              {| readyState := CONNECTING; sent := [] |})
    as (_ & _ & s3 & Hopen & Hsent & Hpending); try reflexivity.
  exists s3. split; [|split].
  - exact Hopen.
  - exact Hsent.
  - exact Hpending.
Defined.

(** C2.  The pending viewport is not always delivered.  The mounting
    effect runs, is cleaned up and runs again, as under React's strict
    mode; socket 0, which the cleanup closed, reports its close, and its
    [ws.onclose] empties [wsRef] although socket 1 is connecting; the map
    becomes ready and is moved, so two viewports are requested while no
    socket is open.  The slot then holds the second viewport and nothing
    was sent, as claimed.  But when socket 1 opens, [ws.onopen] hands the
    viewport to [sendBounds], which tests [wsRef] and not the socket that
    opened, finds it empty and sends nothing; and [ws.onopen] empties the
    slot all the same.  The hook is connected, no [subscribe_bounds] has
    gone out on any socket, and the viewport is gone. *)
Theorem open_drops_the_pending_viewport :
  exists s1 s2,
    run [Mount; Unmount; Mount; Close 0%nat true; MapReady dublin; MoveEnd howth] (initial 0)
    = Some s1
    /\ map readyState (sockets (env s1)) = [CLOSED; CONNECTING]
    /\ wsRef (hk s1) = None
    /\ pendingBoundsRef (hk s1) = Some howth
    /\ map sent (sockets (env s1)) = [[]; []]
    /\ step (Open 1%nat) s1 = Some s2
    /\ map readyState (sockets (env s2)) = [CLOSED; OPEN]
    /\ connected (hk s2) = true
    /\ map sent (sockets (env s2)) = [[]; []]
    /\ pendingBoundsRef (hk s2) = None.
Proof.
  eexists. eexists.
  split; [vm_compute; reflexivity|].
  repeat split.
Qed.

(** ** [connect] *)

Lemma connect_open (s : world) : current_is_open s = true -> connect s = s.
Proof. unfold connect. intros ->. reflexivity. Qed.

Lemma connect_not_open (s : world) :
  current_is_open s = false ->
  sockets (env (connect s)) = sockets (env s) ++ [{| readyState := CONNECTING; sent := [] |}]
  /\ wsRef (hk (connect s)) = Some (length (sockets (env s)))
  /\ now (env (connect s)) = now (env s)
  /\ timers (env (connect s))
     = match reconnectTimeoutRef (hk s) with
       | Some id => List.filter (fun t => negb (Pos.eqb (fst t) id)) (timers (env s))
       | None => timers (env s)
       end.
Proof.
  unfold connect. intros ->. destruct (reconnectTimeoutRef (hk s)); cbn; auto.
Qed.

(** The claim of C5 fails while the socket in [wsRef] is still connecting:
    a second [connect()] constructs a second socket. *)
Lemma connect_while_connecting_opens_another : ~ connect_is_noop_when_live.
Proof.
  intros H.
  specialize (H (mount (initial 0)) 0%nat eq_refl (or_intror eq_refl)).
  discriminate H.
Qed.

(** C5, amended.  [connect()] is a no-op when the socket in [wsRef] is
    open.  In every other state of that socket, connecting included, it
    constructs a new socket, stores it in [wsRef] and leaves the earlier
    socket as it was, neither closed nor detached. *)
Theorem connect_guards_only_open (s : world) (h : nat) (r : ReadyState) :
  wsRef (hk s) = Some h ->
  ready s h = Some r ->
  match r with
  | OPEN => connect s = s
  | _ =>
      sockets (env (connect s))
      = sockets (env s) ++ [{| readyState := CONNECTING; sent := [] |}]
      /\ wsRef (hk (connect s)) = Some (length (sockets (env s)))
      /\ ready (connect s) h = Some r
      /\ timers (env (connect s))
         = match reconnectTimeoutRef (hk s) with
           | Some id => List.filter (fun t => negb (Pos.eqb (fst t) id)) (timers (env s))
           | None => timers (env s)
           end
  end.
Proof.
  intros Hws Hr.
  assert (Hopen : current_is_open s = match r with OPEN => true | _ => false end).
  { unfold current_is_open. rewrite Hws, Hr. destruct r; reflexivity. }
  assert (Hold : current_is_open s = false -> ready (connect s) h = Some r).
  { intros Hc. destruct (connect_not_open s Hc) as (Hs & _).
    unfold ready in *. rewrite Hs.
    destruct (sockets (env s) !! h) as [w|] eqn:Hw; [|discriminate].
    rewrite (lookup_app_l_Some _ _ _ _ Hw). exact Hr. }
  destruct r; try (destruct (connect_not_open s Hopen) as (H1 & H2 & _ & H3); auto).
  apply connect_open, Hopen.
Qed.

Lemma connect_guards_only_open_witness :
  sockets (env (connect (mount (initial 0))))
  = [{| readyState := CONNECTING; sent := [] |}; {| readyState := CONNECTING; sent := [] |}]
  /\ wsRef (hk (connect (mount (initial 0)))) = Some 1%nat
  /\ ready (connect (mount (initial 0))) 0%nat = Some CONNECTING
  /\ timers (env (connect (mount (initial 0)))) = [].
Proof.
  exact (connect_guards_only_open (mount (initial 0)) 0%nat CONNECTING eq_refl eq_refl).
Defined.

(** ** Teardown *)

Lemma filter_twice {A} (f : A -> bool) (l : list A) :
  List.filter f (List.filter f l) = List.filter f l.
Proof.
  induction l as [|x rest IH]; cbn; [reflexivity|].
  destruct (f x) eqn:E; cbn; [rewrite E|]; congruence.
Qed.

(** Running the cleanup a second time changes nothing. *)
Lemma cleanup_idempotent (s : world) : cleanup (cleanup s) = cleanup s.
Proof.
  open_world s. destruct timeout as [id|], ws as [h|];
    unfold cleanup, clearTimeout, ws_close, update_socket, with_env, with_hk; cbn;
    rewrite ?filter_twice; reflexivity.
Qed.

(** C6, at the failing input.  The hook is mounted, its socket opens, the
    cleanup runs twice.  The socket then reports its close: [ws.onclose] is
    still attached, schedules a reconnect, and 3000 ms later a new socket is
    constructed although the hook was torn down. *)
Theorem teardown_does_not_stop_reconnect :
  run [Mount; Open 0%nat; Unmount; Unmount] (initial 0)
  = Some {| env := {| now := 0; sockets := [{| readyState := CLOSING; sent := [] |}];
                      timers := []; next_timer := 1 |};
            hk := {| wsRef := None; reconnectTimeoutRef := None; pendingBoundsRef := None;
                     connected := true; vehicleCount := of_nat 0; error := None;
                     lastUpdate := None |};
            pg := initial_page |}
  /\ run [Mount; Open 0%nat; Unmount; Unmount; Close 0%nat false] (initial 0)
     = Some {| env := {| now := 0; sockets := [{| readyState := CLOSED; sent := [] |}];
                         timers := [(1%positive, 3000)]; next_timer := 2 |};
               hk := {| wsRef := None; reconnectTimeoutRef := Some 1%positive;
                        pendingBoundsRef := None; connected := false;
                        vehicleCount := of_nat 0; error := None; lastUpdate := None |};
               pg := initial_page |}
  /\ run [Mount; Open 0%nat; Unmount; Unmount; Close 0%nat false; Tick 3000; Timer 1%positive]
       (initial 0)
     = Some {| env := {| now := 3000;
                         sockets := [{| readyState := CLOSED; sent := [] |};
                                     {| readyState := CONNECTING; sent := [] |}];
                         timers := []; next_timer := 2 |};
               hk := {| wsRef := Some 1%nat; reconnectTimeoutRef := Some 1%positive;
                        pendingBoundsRef := None; connected := false;
                        vehicleCount := of_nat 0; error := None; lastUpdate := None |};
               pg := initial_page |}.
Proof. repeat split. Qed.

(** ** Reconnecting *)

Lemma close_schedules_reconnect (s s' : world) (h : nat) (failed : bool) :
  step (Close h failed) s = Some s' ->
  timers (env s') = timers (env s) ++ [(next_timer (env s), now (env s) + 3000)]
  /\ next_timer (env s') = Pos.succ (next_timer (env s))
  /\ reconnectTimeoutRef (hk s') = Some (next_timer (env s))
  /\ wsRef (hk s') = None
  /\ connected (hk s') = false
  /\ now (env s') = now (env s)
  /\ sockets (env s') = alter (set_readyState CLOSED) h (sockets (env s))
  /\ pg s' = pg s.
Proof.
  unfold step. destruct (ready s h) as [[]|]; try discriminate;
    intros [= <-]; destruct failed; cbn; auto 10.
Qed.

Lemma close_effect (s : world) (h : nat) (r : ReadyState) (failed : bool) :
  ready s h = Some r ->
  r <> CLOSED ->
  exists s',
    step (Close h failed) s = Some s'
    /\ connected (hk s') = false
    /\ wsRef (hk s') = None
    /\ timers (env s') = timers (env s) ++ [(next_timer (env s), now (env s) + 3000)]
    /\ reconnectTimeoutRef (hk s') = Some (next_timer (env s)).
Proof.
  intros Hready Hr.
  destruct (step (Close h failed) s) as [s'|] eqn:Hstep.
  - destruct (close_schedules_reconnect _ _ _ _ Hstep) as (H1 & _ & H4 & H2 & H3 & _).
    exists s'. auto.
  - unfold step in Hstep. rewrite Hready in Hstep. destruct r; try discriminate. congruence.
Qed.






(** ** Frames *)

(** A frame that does not parse changes nothing. *)
Lemma ws_onmessage_corrupt (callback : option (value -> world -> world))
    (data : string) (s : world) :
  ws_onmessage callback (Corrupt data) s = s.
Proof. reflexivity. Qed.

(** A well-typed [vehicle_updates] frame: the clock goes to [lastUpdate],
    the length of the batch to [vehicleCount], the batch to the page. *)
Lemma ws_onmessage_vehicle_updates (ts : string) (batch : list VehiclePosition) (s : world) :
  ws_onmessage (Some handleVehicleUpdates) (vehicle_updates ts batch) s
  = handleVehicleUpdates (VArray (map vehicle_json batch))
      (setVehicleCount (of_nat (length batch))
         (setLastUpdate (Some (now (env s))) s)).
Proof.
  unfold ws_onmessage, try_catch, mbind, stmt_bind, mret, stmt_ret, eval, exec.
  cbn. rewrite length_map. reflexivity.
Qed.

Lemma place_markers_readable (table : jsmap value) (drawn : jsmap marker) :
  readable table ->
  exists drawn', fold_left place_marker table (Normal tt, drawn) = (Normal tt, drawn').
Proof.
  intros Hr. revert drawn. induction Hr as [|[k v] rest Hv _ IH]; intros drawn.
  - exists drawn. reflexivity.
  - cbn [fold_left]. cbn in Hv.
    assert (exists drawn1, place_marker (Normal tt, drawn) (k, v) = (Normal tt, drawn1)) as [d1 ->].
    { unfold place_marker. destruct v; try discriminate; cbn;
        destruct (map_get k drawn); eauto. }
    apply IH.
Qed.

Lemma update_markers_readable (p : page) :
  readable (vehicles p) -> render_failed (update_markers p) = render_failed p.
Proof.
  intros Hr. unfold update_markers. destruct (mapReady p); [|reflexivity].
  destruct (place_markers_readable _ (remove_markers (vehicles p) (markersRef p)) Hr)
    as [drawn' ->].
  reflexivity.
Qed.

Lemma map_set_readable (k v : value) (table : jsmap value) :
  can_read v = true -> readable table -> readable (map_set k v table).
Proof.
  intros Hv Hr. induction Hr as [|[k0 v0] rest H0 Hrest IH]; cbn.
  - repeat constructor. exact Hv.
  - destruct (same_value_zero k0 k); constructor; auto.
Qed.

Lemma apply_readable (batch : list VehiclePosition) (table : jsmap value) :
  readable table -> readable (apply batch table).
Proof.
  revert table. induction batch as [|v rest IH]; intros table Hr; [exact Hr|].
  cbn [apply fold_left]. apply IH. apply map_set_readable; [reflexivity|exact Hr].
Qed.

(** The state after a well-typed [vehicle_updates] frame, field by field. *)
Lemma vehicle_updates_step (s : world) (h : nat) (ts : string) (batch : list VehiclePosition) :
  ready s h = Some OPEN ->
  exists s',
    step (Message h (vehicle_updates ts batch)) s = Some s'
    /\ env s' = env s
    /\ hk s' = set_vehicleCount (of_nat (length batch))
                 (set_lastUpdate (Some (now (env s))) (hk s))
    /\ vehicles (pg s') = apply batch (vehicles (pg s))
    /\ mapReady (pg s') = mapReady (pg s)
    /\ (readable (vehicles (pg s)) -> render_failed (pg s') = render_failed (pg s)).
Proof.
  intros Hready. unfold step. rewrite Hready. eexists. split; [reflexivity|].
  rewrite ws_onmessage_vehicle_updates, handleVehicleUpdates_batch. cbn.
  repeat split.
  - rewrite update_markers_vehicles. reflexivity.
  - rewrite update_markers_mapReady. reflexivity.
  - intros Hr. rewrite update_markers_readable; [reflexivity|].
    cbn. apply apply_readable, Hr.
Qed.




(** ** Ill-typed batches *)

(** The claim of C10 fails for a [vehicles] that is a string: [length] is
    there, so [vehicleCount] changes, the callback runs and the table gets
    an entry per character under the key [undefined]. *)
Lemma string_batch_is_processed : ~ bad_batch_only_moves_lastUpdate.
Proof.
  intros H.
  specialize (H live
    (with_pg (set_vehicles [(VUndefined, VString "b")])
       (setVehicleCount (of_nat 2) (setLastUpdate (Some 0) live)))
    0%nat
    [("type", VString "vehicle_updates"); ("vehicles", VString "ab")]
    eq_refl eq_refl eq_refl).
  discriminate H.
Qed.

(** A number has no [length]: the count becomes [undefined], the callback
    runs, and its updater throws during render. *)
Example number_batch_is_processed :
  step (Message 0%nat (Json (VObject [("type", VString "vehicle_updates");
                                      ("vehicles", VNumber 5)]))) live
  = Some (with_pg (set_render_failed true)
            (setVehicleCount VUndefined (setLastUpdate (Some 0) live))).
Proof. reflexivity. Qed.

(** A frame of type [vehicle_updates], whatever its [vehicles]: the clock
    goes to [lastUpdate]; then either reading [length] throws and that is
    all, or the length goes to [vehicleCount] and [vehicles] to the
    callback.  Reading [length] throws for [undefined] and [null] only. *)
Lemma ws_onmessage_any_batch (s : world) (props : list (string * value)) :
  own_property props "type" = VString "vehicle_updates" ->
  ws_onmessage (Some handleVehicleUpdates) (Json (VObject props)) s
  = match get (own_property props "vehicles") "length" with
    | Normal len =>
        handleVehicleUpdates (own_property props "vehicles")
          (setVehicleCount len (setLastUpdate (Some (now (env s))) s))
    | Throw _ => setLastUpdate (Some (now (env s))) s
    end.
Proof.
  intros Hty.
  unfold ws_onmessage, try_catch, mbind, stmt_bind, mret, stmt_ret, eval, exec.
  cbn. rewrite Hty. cbn.
  destruct (get (own_property props "vehicles") "length"); reflexivity.
Qed.

Lemma length_throws (v : value) :
  (exists e, get v "length" = Throw e) <-> v = VUndefined \/ v = VNull.
Proof.
  split.
  - intros [e He]. destruct v; cbn in He; try discriminate; auto.
  - intros [-> | ->]; eexists; reflexivity.
Qed.

(** C10, amended.  For a frame of type [vehicle_updates] whose [vehicles]
    is absent or [null], reading [length] throws inside the handler's
    [try]: [lastUpdate] has been set to the clock by then, and nothing
    else changes, neither [vehicleCount], nor the page, nor any socket,
    timer or ref. *)
Theorem missing_batch_only_moves_lastUpdate
    (s : world) (h : nat) (props : list (string * value)) :
  ready s h = Some OPEN ->
  own_property props "type" = VString "vehicle_updates" ->
  own_property props "vehicles" = VUndefined \/ own_property props "vehicles" = VNull ->
  step (Message h (Json (VObject props))) s = Some (setLastUpdate (Some (now (env s))) s).
Proof.
  intros Hready Hty Hvs. unfold step. rewrite Hready. f_equal.
  rewrite (ws_onmessage_any_batch s props Hty).
  apply length_throws in Hvs as [e ->]. reflexivity.
Qed.

Lemma missing_batch_only_moves_lastUpdate_witness :
  step (Message 0%nat (Json (VObject [("type", VString "vehicle_updates");
                                      ("ts", VString "2024-01-01T00:00:00Z")]))) live
  = Some (setLastUpdate (Some 0) live).
Proof.
  exact (missing_batch_only_moves_lastUpdate live 0%nat
           [("type", VString "vehicle_updates"); ("ts", VString "2024-01-01T00:00:00Z")]
           eq_refl eq_refl (or_introl eq_refl)).
Defined.

(** ** The two vehicle counts *)

Lemma map_keys_set_string (a : string) (v : value) (table : jsmap value) (seen : list string) :
  map_keys table = map VString seen ->
  map_keys (map_set (VString a) v table) = map VString (add_id a seen).
Proof.
  unfold add_id. revert table. induction seen as [|c seen IH]; intros [|[k0 v0] rest]; cbn;
    try discriminate.
  - reflexivity.
  - intros [= -> Hrest]. cbn.
    destruct (String.eqb c a) eqn:E.
    + apply String.eqb_eq in E. subst c.
      rewrite bool_decide_eq_true_2 by apply list_elem_of_here. cbn. rewrite Hrest. reflexivity.
    + assert (c <> a) as Hne by (intros ->; rewrite String.eqb_refl in E; discriminate).
      cbn. pose proof (IH rest Hrest) as IH'. unfold map_keys in IH'. rewrite IH'.
      destruct (bool_decide (a ∈ seen)) eqn:Ein.
      * apply bool_decide_eq_true_1 in Ein.
        rewrite bool_decide_eq_true_2 by (apply list_elem_of_further; exact Ein). reflexivity.
      * apply bool_decide_eq_false_1 in Ein.
        rewrite bool_decide_eq_false_2; [reflexivity|].
        intros [Heq|Hin]%elem_of_cons; [congruence|contradiction].
Qed.

Lemma map_keys_apply (batch : list VehiclePosition) (table : jsmap value) (seen : list string) :
  map_keys table = map VString seen ->
  map_keys (apply batch table)
  = map VString (fold_left (fun seen v => add_id (trip_id v) seen) batch seen).
Proof.
  revert table seen. induction batch as [|v rest IH]; intros table seen Hk; [exact Hk|].
  cbn [apply fold_left]. apply IH. apply map_keys_set_string, Hk.
Qed.

(** From the empty table, the size of the table is the number of distinct
    trip ids received so far. *)
Lemma map_size_apply_all (batches : list (list VehiclePosition)) :
  map_size (apply_all batches []) = length (distinct_ids (concat batches)).
Proof.
  rewrite apply_all_concat. unfold map_size, distinct_ids.
  rewrite <- (length_map fst). fold (map_keys (apply (concat batches) [])).
  rewrite (map_keys_apply (concat batches) [] []) by reflexivity.
  apply length_map.
Qed.

Lemma add_id_NoDup (a : string) (seen : list string) : NoDup seen -> NoDup (add_id a seen).
Proof.
  intros Hnd. unfold add_id. destruct (bool_decide (a ∈ seen)) eqn:E; [exact Hnd|].
  apply bool_decide_eq_false_1 in E.
  apply NoDup_app. split; [exact Hnd|]. split.
  - intros x Hx [->|[]%elem_of_nil]%elem_of_cons. contradiction.
  - apply NoDup_singleton.
Qed.

Lemma add_id_elem (a x : string) (seen : list string) :
  x ∈ add_id a seen <-> x = a \/ x ∈ seen.
Proof.
  unfold add_id. destruct (bool_decide (a ∈ seen)) eqn:E.
  - apply bool_decide_eq_true_1 in E. split; [auto|]. intros [->|]; assumption.
  - rewrite elem_of_app, list_elem_of_singleton. tauto.
Qed.

(** [distinct_ids] lists every trip id of the records, each once. *)
Lemma distinct_ids_spec (l : list VehiclePosition) :
  NoDup (distinct_ids l)
  /\ forall x, x ∈ distinct_ids l <-> exists v, v ∈ l /\ trip_id v = x.
Proof.
  unfold distinct_ids.
  assert (G : forall seen,
    NoDup seen ->
    NoDup (fold_left (fun seen v => add_id (trip_id v) seen) l seen)
    /\ forall x, x ∈ fold_left (fun seen v => add_id (trip_id v) seen) l seen
                 <-> x ∈ seen \/ exists v, v ∈ l /\ trip_id v = x).
  { induction l as [|v rest IH]; intros seen Hnd; cbn [fold_left].
    - split; [exact Hnd|]. intros x. split; [auto|].
      intros [H|(v & []%elem_of_nil & _)]. exact H.
    - destruct (IH (add_id (trip_id v) seen) (add_id_NoDup _ _ Hnd)) as [H1 H2].
      split; [exact H1|]. intros x. rewrite H2, add_id_elem. split.
      + intros [[->|H]|(w & Hw & Hx)]; eauto using list_elem_of_here, list_elem_of_further.
      + intros [H|(w & [->|Hw]%elem_of_cons & Hx)]; eauto. }
  destruct (G [] (NoDup_nil_2)) as [H1 H2]. split; [exact H1|].
  intros x. rewrite H2. split; [|auto]. intros [[]%elem_of_nil|H]. exact H.
Qed.

(** The claim of C9 fails: after the batch [A; B] and then the batch [A]
    the hook's count is 1 and the table holds 2 vehicles. *)
Lemma count_is_last_batch_not_table : ~ count_is_table_size.
Proof.
  intros H.
  assert (Hreach : reachable (after [Mount; Open 0%nat;
            Message 0%nat (vehicle_updates "t1" [sample "A" 10 None; sample "B" 10 None])])).
  { exists 0, [Mount; Open 0%nat;
              Message 0%nat (vehicle_updates "t1" [sample "A" 10 None; sample "B" 10 None])].
    reflexivity. }
  specialize (H _ _ 0%nat "t2" [sample "A" 20 None] Hreach eq_refl).
  discriminate H.
Qed.

(** C9, amended.  After a [vehicle_updates] frame the [vehicleCount] the
    hook exposes is the number of records in that frame.  The count the
    page shows is [vehicles.size], the size of the table after the batch
    was applied; from the empty table that is the number of distinct trip
    ids received so far. *)
Theorem vehicleCount_is_batch_length
    (s : world) (h : nat) (ts : string) (batch : list VehiclePosition) :
  ready s h = Some OPEN ->
  exists s',
    step (Message h (vehicle_updates ts batch)) s = Some s'
    /\ vehicleCount (hk s') = of_nat (length batch)
    /\ displayed_count s' = map_size (apply batch (vehicles (pg s)))
    /\ forall batches,
         vehicles (pg s) = apply_all batches [] ->
         displayed_count s' = length (distinct_ids (concat (batches ++ [batch]))).
Proof.
  intros Hready.
  destruct (vehicle_updates_step s h ts batch Hready) as (s' & Hs & _ & Hh & Hv & _).
  exists s'. split; [exact Hs|]. split; [rewrite Hh; reflexivity|].
  unfold displayed_count. rewrite Hv. split; [reflexivity|].
  intros batches ->. rewrite <- map_size_apply_all.
  unfold apply_all. rewrite fold_left_app. reflexivity.
Qed.

Lemma vehicleCount_is_batch_length_witness :
  exists s',
    step (Message 0%nat (vehicle_updates "t2" [sample "A" 20 None]))
      (after [Mount; Open 0%nat;
              Message 0%nat (vehicle_updates "t1" [sample "A" 10 None; sample "B" 10 None])])
    = Some s'
    /\ vehicleCount (hk s') = of_nat 1
    /\ displayed_count s' = 2%nat.
Proof.
  destruct (vehicleCount_is_batch_length
              (after [Mount; Open 0%nat;
                      Message 0%nat (vehicle_updates "t1" [sample "A" 10 None; sample "B" 10 None])])
              0%nat "t2" [sample "A" 20 None] eq_refl)
    as (s' & Hs & Hc & Hd & _).
  exists s'. split; [exact Hs|]. split; [exact Hc|]. rewrite Hd. reflexivity.
Defined.

(** ** Superseded sockets *)

(** The claim of C7 fails: after a remount socket 0 is superseded by
    socket 1, and when socket 0 reports its close, [ws.onclose] clears
    [wsRef], which held socket 1, and schedules a reconnect. *)
Lemma stale_close_drops_live_socket : ~ stale_callbacks_are_inert.
Proof.
  intros H.
  assert (Hreach : reachable remounted)
    by (exists 0, [Mount; Unmount; Mount]; exact remounted_reachable).
  assert (Hsup : superseded remounted 0) by (unfold superseded; cbn; lia).
  destruct (H remounted _ 0%nat (Close 0%nat true) Hreach Hsup eq_refl eq_refl) as [Hhk _].
  discriminate Hhk.
Qed.

(** After a remount the pending viewport is lost: the close of socket 0
    empties [wsRef], so when socket 1 opens [sendBounds] finds no socket to
    send on, and [ws.onopen] empties the slot all the same. *)
Example viewport_lost_after_remount :
  exists s,
    run [Mount; MapReady dublin; Unmount; Mount; Close 0%nat true; Open 1%nat] (initial 0)
    = Some s
    /\ map sent (sockets (env s)) = [[]; []]
    /\ pendingBoundsRef (hk s) = None
    /\ connected (hk s) = true.
Proof. eexists. repeat split. Qed.

Lemma open_effect (s : world) (h : nat) :
  ready s h = Some CONNECTING ->
  exists s',
    step (Open h) s = Some s'
    /\ connected (hk s') = true
    /\ error (hk s') = None
    /\ pendingBoundsRef (hk s') = None.
Proof.
  intros Hready. unfold step. rewrite Hready. eexists. split; [reflexivity|].
  unfold ws_onopen. cbn. destruct (pendingBoundsRef (hk s)) eqn:E; cbn.
  - unfold sendBounds. cbn. destruct (wsRef (hk s)); cbn; [|auto].
    match goal with |- context [ready ?x ?y] => destruct (ready x y) as [[]|] end; cbn; auto.
  - auto.
Qed.

(** C7, amended.  The handlers are the same closures for every socket and
    read the refs, not the socket they are attached to, so a superseded
    socket is served like the current one.  While it is connecting its open
    sets [connected] and empties the pending slot; while it is open a
    [vehicle_updates] frame from it sets [lastUpdate] and [vehicleCount]
    and is applied to the table; until it is closed its close event sets
    [connected] to false, empties [wsRef] whichever socket that held, and
    schedules a reconnect.  Only a closed socket reports nothing more. *)
Theorem stale_callbacks_take_effect (s : world) (h : nat) (r : ReadyState) :
  superseded s h ->
  ready s h = Some r ->
  (r = CONNECTING ->
   exists s', step (Open h) s = Some s'
              /\ connected (hk s') = true
              /\ error (hk s') = None
              /\ pendingBoundsRef (hk s') = None)
  /\ (r = OPEN ->
      forall ts batch,
      exists s', step (Message h (vehicle_updates ts batch)) s = Some s'
                 /\ lastUpdate (hk s') = Some (now (env s))
                 /\ vehicleCount (hk s') = of_nat (length batch)
                 /\ vehicles (pg s') = apply batch (vehicles (pg s)))
  /\ (r <> CLOSED ->
      forall failed,
      exists s', step (Close h failed) s = Some s'
                 /\ connected (hk s') = false
                 /\ wsRef (hk s') = None
                 /\ timers (env s')
                    = timers (env s) ++ [(next_timer (env s), now (env s) + 3000)])
  /\ (r = CLOSED -> forall e, source e = Some h -> step e s = None).
Proof.
  intros _ Hready. repeat split.
  - intros ->. apply open_effect, Hready.
  - intros -> ts batch.
    destruct (vehicle_updates_step s h ts batch Hready) as (s' & Hs & _ & Hh & Hv & _).
    exists s'. rewrite Hh. auto.
  - intros Hr failed.
    destruct (close_effect s h r failed Hready Hr) as (s' & H1 & H2 & H3 & H4 & _).
    exists s'. auto.
  - intros -> e He.
    destruct e; cbn in He; try discriminate; injection He as ->;
      unfold step; rewrite Hready; reflexivity.
Qed.

Lemma stale_callbacks_take_effect_witness :
  (exists s', step (Message 1%nat (vehicle_updates "t" [sample "T1" 10 None])) two_feeds = Some s'
              /\ lastUpdate (hk s') = Some 3000
              /\ vehicleCount (hk s') = of_nat 1
              /\ vehicles (pg s') = [(VString "T1", vehicle_json (sample "T1" 10 None))])
  /\ (exists s', step (Close 1%nat false) two_feeds = Some s'
                 /\ connected (hk s') = false
                 /\ wsRef (hk s') = None
                 /\ timers (env s') = [(2%positive, 6000)]).
Proof.
  assert (Hsup : superseded two_feeds 1) by (unfold superseded; vm_compute; lia).
  destruct (stale_callbacks_take_effect two_feeds 1%nat OPEN Hsup eq_refl)
    as (_ & Hmsg & Hclose & _).
  split.
  - exact (Hmsg eq_refl "t" [sample "T1" 10 None]).
  - apply Hclose. discriminate.
Defined.

(** ** Eviction *)

Lemma set_each_keeps_keys (k : value) (updates : list value) (table next : jsmap value) :
  set_each updates table = Normal next ->
  map_has k table = true -> map_has k next = true.
Proof.
  revert table. induction updates as [|v rest IH]; intros table; cbn [set_each].
  - intros [= <-]. auto.
  - destruct (get v "trip_id") as [tripId|]; [|discriminate].
    intros Hrest Hk. eapply IH; [exact Hrest|]. apply map_has_set_mono, Hk.
Qed.

Lemma setVehicles_keeps_keys (k updates : value) (p : page) :
  map_has k (vehicles p) = true ->
  map_has k (vehicles (setVehicles (updater updates) p)) = true.
Proof.
  intros Hk. unfold setVehicles, updater.
  destruct (iterate updates) as [vs|]; [|exact Hk].
  destruct (set_each vs (vehicles p)) as [next|] eqn:E; [|exact Hk].
  rewrite update_markers_vehicles. cbn. eapply set_each_keeps_keys; eassumption.
Qed.

(** What a frame can do to the page: nothing, or one call of the
    callback. *)
Lemma ws_onmessage_pg (data : frame) (s : world) :
  pg (ws_onmessage (Some handleVehicleUpdates) data s) = pg s
  \/ exists updates,
       pg (ws_onmessage (Some handleVehicleUpdates) data s)
       = setVehicles (updater updates) (pg s).
Proof.
  unfold ws_onmessage, try_catch, mbind, stmt_bind, mret, stmt_ret, eval, exec.
  destruct data as [raw|message]; cbn; [auto|].
  destruct (get message "type") as [ty|]; cbn; [|auto].
  destruct (is_type ty "vehicle_updates"); cbn.
  { destruct (get message "vehicles") as [vs|]; cbn; [|auto].
    destruct (get vs "length") as [len|]; cbn; [|auto].
    right. exists vs. reflexivity. }
  destruct (is_type ty "connected"); cbn.
  { destruct (get message "message") as [text|]; cbn; [|auto].
    destruct (template text); cbn; [|auto].
    destruct (get message "vehicle_count") as [n|]; cbn; [|auto].
    destruct (template n); cbn; auto. }
  destruct (is_type ty "bounds_set"); cbn; [|auto].
  destruct (get message "vehicle_count") as [n|]; cbn; [|auto].
  destruct (template n); cbn; auto.
Qed.

Lemma connect_pg (s : world) : pg (connect s) = pg s.
Proof.
  unfold connect. destruct (current_is_open s); [reflexivity|].
  destruct (reconnectTimeoutRef (hk s)); reflexivity.
Qed.

Lemma cleanup_pg (s : world) : pg (cleanup s) = pg s.
Proof.
  unfold cleanup. destruct (reconnectTimeoutRef (hk s)); cbn; destruct (wsRef (hk s)); reflexivity.
Qed.

Lemma subscribeToBounds_pg (bounds : MapBounds) (s : world) :
  pg (subscribeToBounds bounds s) = pg s.
Proof.
  unfold subscribeToBounds, sendBounds. destruct (current_is_open s); [|reflexivity].
  destruct (wsRef (hk s)); [|reflexivity]. destruct (ready s n) as [[]|]; reflexivity.
Qed.

Lemma ws_onopen_pg (s : world) : pg (ws_onopen s) = pg s.
Proof.
  unfold ws_onopen. cbn. destruct (pendingBoundsRef (hk s)); [|reflexivity]. cbn.
  unfold sendBounds. cbn. destruct (wsRef (hk s)); [|reflexivity].
  match goal with |- context [ready ?x ?y] => destruct (ready x y) as [[]|] end; reflexivity.
Qed.

Create Rewrite HintDb page_unchanged.
#[local] Hint Rewrite connect_pg cleanup_pg subscribeToBounds_pg ws_onopen_pg : page_unchanged.

(** Nothing but the REST snapshot takes a key out of the table. *)
Lemma step_keeps_keys (k : value) (e : event) (s s' : world) :
  from_feed e = true ->
  step e s = Some s' ->
  map_has k (vehicles (pg s)) = true -> map_has k (vehicles (pg s')) = true.
Proof.
  destruct e as [| |b|b|snapshot|h|h data|h failed|id|d]; cbn [step from_feed];
    try discriminate; intros _.
  - intros [= <-]. unfold mount. autorewrite with page_unchanged. auto.
  - intros [= <-]. autorewrite with page_unchanged. auto.
  - intros [= <-]. cbn [pg with_pg]. rewrite update_markers_vehicles.
    cbn [vehicles set_mapReady]. autorewrite with page_unchanged. auto.
  - destruct (mapReady (pg s)); [|discriminate].
    intros [= <-]. autorewrite with page_unchanged. auto.
  - destruct (ready s h) as [[]|]; try discriminate.
    intros [= <-]. autorewrite with page_unchanged. auto.
  - destruct (ready s h) as [[]|]; try discriminate.
    intros [= <-] Hk.
    destruct (ws_onmessage_pg data s) as [-> | [updates ->]]; [exact Hk|].
    apply setVehicles_keeps_keys, Hk.
  - intros Hstep. destruct (close_schedules_reconnect _ _ _ _ Hstep) as (_&_&_&_&_&_&_&->). auto.
  - destruct (timer_due id s); [|discriminate].
    intros [= <-]. unfold reconnect. autorewrite with page_unchanged. auto.
  - destruct (Z.leb 0 d); [|discriminate]. intros [= <-]. auto.
Qed.

Lemma run_keeps_keys (k : value) (es : list event) (s s' : world) :
  forallb from_feed es = true ->
  run es s = Some s' ->
  map_has k (vehicles (pg s)) = true -> map_has k (vehicles (pg s')) = true.
Proof.
  revert s. induction es as [|e rest IH]; intros s; cbn [run forallb].
  - intros _ [= <-]. auto.
  - intros [He Hrest]%andb_prop.
    destruct (step e s) as [s1|] eqn:E; [|discriminate].
    intros Hrun Hk. eapply IH; [exact Hrest|exact Hrun|].
    eapply step_keeps_keys; eassumption.
Qed.

Lemma toRemove_spec (table : jsmap value) (drawn : jsmap marker) (x : value) :
  In x (toRemove table drawn) <-> In x (map_keys drawn) /\ map_has x table = false.
Proof.
  unfold toRemove. rewrite List.filter_In, negb_true_iff. reflexivity.
Qed.

(** The removal loop drops exactly the drawn ids that are no key of the
    table. *)
Lemma remove_markers_string (tripId : string) (table : jsmap value) (drawn : jsmap marker) :
  map_has (VString tripId) (remove_markers table drawn)
  = map_has (VString tripId) drawn && map_has (VString tripId) table.
Proof.
  assert (Hcons : forall (k0 : value) (m0 : marker) (l : jsmap marker),
            map_has (VString tripId) ((k0, m0) :: l)
            = same_value_zero k0 (VString tripId) || map_has (VString tripId) l).
  { intros k0 m0 l. unfold map_has. cbn.
    destruct (same_value_zero k0 (VString tripId)); reflexivity. }
  assert (Hsame : forall k0, same_value_zero k0 (VString tripId) = true -> k0 = VString tripId).
  { intros [| |x|x|c|x|x]; cbn; try discriminate. intros ->%String.eqb_eq. reflexivity. }
  unfold remove_markers.
  induction drawn as [|[k0 m0] rest IH]; [reflexivity|].
  cbn [List.filter fst].
  destruct (map_has k0 table) eqn:Hk0; rewrite ?Hcons, IH;
    destruct (same_value_zero k0 (VString tripId)) eqn:E; cbn; try reflexivity;
    apply Hsame in E; subst k0; rewrite Hk0.
  - reflexivity.
  - apply andb_false_r.
Qed.

Lemma applied_record_is_key (a : VehiclePosition) (batch : list VehiclePosition)
    (table : jsmap value) :
  In a batch -> map_has (VString (trip_id a)) (apply batch table) = true.
Proof.
  intros Hin. unfold map_has. rewrite map_get_apply.
  destruct (latest_In (trip_id a) batch a Hin eq_refl) as [w ->]. reflexivity.
Qed.

Lemma tick_step (d : Z) (s : world) :
  0 <= d -> step (Tick d) s = Some (with_env (fun b => set_now (now b + d) b) s).
Proof. intros Hd. cbn [step]. apply Z.leb_le in Hd. rewrite Hd. reflexivity. Qed.

(** The claim of C1 fails for every staleness horizon: trip "A" reports
    once, a batch without it follows after more than the horizon, and "A"
    is still a key of the table, so [toRemove] does not hold it. *)
Lemma stale_vehicle_is_never_removed :
  ~ exists horizon, 0 <= horizon /\ stale_vehicles_are_removed horizon.
Proof.
  intros (horizon & Hpos & Hclaim).
  set (s := after [Mount; MapReady dublin; Open 0%nat]).
  set (first := [sample "A" 0 None]).
  set (later := [sample "B" (inject_Z (horizon + 1)) None]).
  assert (Hreach : reachable s) by (exists 0, [Mount; MapReady dublin; Open 0%nat]; reflexivity).
  destruct (vehicle_updates_step s 0%nat "t1" first eq_refl) as (s1 & Hs1 & He1 & _ & Hv1 & _).
  set (s1' := with_env (fun b => set_now (now b + (1000 * horizon + 1)) b) s1).
  assert (Hready : ready s1' 0 = Some OPEN).
  { unfold ready, s1'. cbn. rewrite He1. reflexivity. }
  destruct (vehicle_updates_step s1' 0%nat "t2" later Hready) as (s2 & Hs2 & _ & _ & Hv2 & _).
  assert (Hrun : run [Tick (1000 * horizon + 1); Message 0%nat (vehicle_updates "t2" later)] s1
                 = Some s2).
  { cbn [run]. rewrite tick_step by lia. fold s1'. rewrite Hs2. reflexivity. }
  assert (Hin : In (VString "A") (toRemove (vehicles (pg s2)) (markersRef (pg s1)))).
  { apply (Hclaim s s1 s2 0%nat "t1" "t2" first later (sample "A" 0 None) (1000 * horizon + 1));
      try assumption.
    - left. reflexivity.
    - repeat constructor. discriminate.
    - repeat constructor. unfold Qlt. cbn. lia.
    - lia. }
  apply toRemove_spec in Hin as [_ Hgone].
  rewrite Hv2 in Hgone. unfold s1' in Hgone. cbn [pg with_env] in Hgone. rewrite Hv1 in Hgone.
  discriminate Hgone.
Qed.

(** C1, amended.  The marker effect removes exactly the drawn trip ids that
    are no key of the current table.  The table has no staleness policy and
    no event of the feed takes a key out of it: once a batch that contains
    trip "A" was applied, "A" is a key after any later events short of the
    REST snapshot, batches without "A" included, so it is in no [toRemove]
    and its marker stays. *)
Theorem no_batch_evicts
    (s s1 s2 : world) (h : nat) (ts : string) (first : list VehiclePosition)
    (a : VehiclePosition) (es : list event) :
  In a first ->
  step (Message h (vehicle_updates ts first)) s = Some s1 ->
  forallb from_feed es = true ->
  run es s1 = Some s2 ->
  map_has (VString (trip_id a)) (vehicles (pg s2)) = true
  /\ (forall drawn, ~ In (VString (trip_id a)) (toRemove (vehicles (pg s2)) drawn))
  /\ (forall drawn x,
        In x (toRemove (vehicles (pg s2)) drawn)
        <-> In x (map_keys drawn) /\ map_has x (vehicles (pg s2)) = false)
  /\ (forall drawn tripId,
        map_has (VString tripId) (remove_markers (vehicles (pg s2)) drawn)
        = map_has (VString tripId) drawn && map_has (VString tripId) (vehicles (pg s2))).
Proof.
  intros Hin Hstep Hfeed Hrun.
  assert (Hkey : map_has (VString (trip_id a)) (vehicles (pg s2)) = true).
  { eapply run_keeps_keys; [exact Hfeed|exact Hrun|].
    assert (Hready : ready s h = Some OPEN).
    { unfold step in Hstep. destruct (ready s h) as [[]|]; try discriminate. reflexivity. }
    destruct (vehicle_updates_step s h ts first Hready) as (s1' & Hs1 & _ & _ & Hv & _).
    rewrite Hstep in Hs1. injection Hs1 as <-.
    rewrite Hv. apply applied_record_is_key, Hin. }
  split; [exact Hkey|]. split; [|split].
  - intros drawn [_ Hgone]%toRemove_spec. congruence.
  - intros drawn x. apply toRemove_spec.
  - intros drawn tripId. apply remove_markers_string.
Qed.

Lemma no_batch_evicts_witness :
  map_has (VString "A")
    (vehicles (pg (after [Mount; MapReady dublin; Open 0%nat;
                          Message 0%nat (vehicle_updates "t1" [sample "A" 0 None]);
                          Tick 86400000;
                          Message 0%nat (vehicle_updates "t2" [sample "B" 86400 None])])))
  = true
  /\ toRemove
       (vehicles (pg (after [Mount; MapReady dublin; Open 0%nat;
                             Message 0%nat (vehicle_updates "t1" [sample "A" 0 None]);
                             Tick 86400000;
                             Message 0%nat (vehicle_updates "t2" [sample "B" 86400 None])])))
       (markersRef (pg (after [Mount; MapReady dublin; Open 0%nat;
                               Message 0%nat (vehicle_updates "t1" [sample "A" 0 None])])))
     = [].
Proof.
  split.
  - apply (no_batch_evicts (after [Mount; MapReady dublin; Open 0%nat])
             (after [Mount; MapReady dublin; Open 0%nat;
                     Message 0%nat (vehicle_updates "t1" [sample "A" 0 None])])
             _ 0%nat "t1" [sample "A" 0 None] (sample "A" 0 None)
             [Tick 86400000; Message 0%nat (vehicle_updates "t2" [sample "B" 86400 None])]
             (or_introl eq_refl) eq_refl eq_refl eq_refl).
  - reflexivity.
Defined.

(** The REST snapshot is the one event that replaces the table: a trip it
    does not list loses its entry and, in the same render, its marker. *)
Example snapshot_replaces_table :
  exists s,
    run [Mount; MapReady dublin; Open 0%nat;
         Message 0%nat (vehicle_updates "t1" [sample "A" 0 None]);
         InitialVehicles (VObject [("vehicles", VArray [vehicle_json (sample "B" 5 None)]);
                                   ("count", of_nat 1)])]
      (initial 0) = Some s
    /\ map_keys (vehicles (pg s)) = [VString "B"]
    /\ map_keys (markersRef (pg s)) = [VString "B"].
Proof. eexists. repeat split. Qed.

(** ** The end-to-end example of the specification *)

Example handshake_then_one_vehicle :
  exists s,
    run [Mount; MapReady dublin; Open 0%nat;
         Message 0%nat (Json (VObject [("type", VString "connected");
                                       ("message", VString "welcome");
                                       ("vehicle_count", of_nat 0)]));
         Message 0%nat (vehicle_updates "2024-01-01T00:00:00Z" [sample "T1" 1 None])]
      (initial 0) = Some s
    /\ displayed_count s = 1%nat
    /\ map_has (VString "T1") (vehicles (pg s)) = true
    /\ sockets (env s) = [{| readyState := OPEN; sent := [subscribe_bounds dublin] |}].
Proof. eexists. repeat split. Qed.

(** * Further properties *)

(** ** The cards *)

Lemma length_append (a b : string) :
  String.length (a +:+ b) = (String.length a + String.length b)%nat.
Proof. induction a as [|c a IH]; simpl; [reflexivity|]. f_equal. exact IH. Qed.

Lemma longer_differs (a b : string) : String.length a <> String.length b -> a <> b.
Proof. intros Hlen ->. apply Hlen. reflexivity. Qed.

Lemma is_exact_true (n : Z) : Z.abs n <= Cards.exact -> Cards.is_exact n = true.
Proof. intros Hn. apply Z.leb_le, Hn. Qed.

(** Hours and minutes never spell "Due", whatever the numerals are. *)
Lemma hours_minutes_not_due (a b : string) : a +:+ "h " +:+ b +:+ "m" <> "Due".
Proof.
  destruct a as [|c a].
  - discriminate.
  - apply longer_differs. cbn [String.append String.length].
    rewrite !length_append. cbn [String.length]. lia.
Qed.

(** X1.  Both cards word the countdown as "Due" exactly when they treat
    the arrival as due ([etaSeconds <= 60]): [formatCountdown] returns
    "Due" for those values and for no other, so the separate [isDue] test
    of [ArrivalCard] changes no text; and a due arrival is always painted
    green. *)
Theorem due_is_consistent (fp : Cards.Doubles) (seconds : Z) :
  (Cards.formatCountdown fp seconds = "Due" <-> Cards.isDue seconds = true)
  /\ Cards.countdown_text fp seconds = Cards.formatCountdown fp seconds
  /\ (Cards.isDue seconds = true -> Cards.getCountdownColor seconds = "text-green-400").
Proof.
  assert (Hiff : Cards.formatCountdown fp seconds = "Due" <-> Cards.isDue seconds = true).
  { unfold Cards.formatCountdown, Cards.isDue.
    destruct (Z.leb seconds 60); [tauto|]. split; [|discriminate].
    intros Heq. exfalso. revert Heq.
    destruct (Z.ltb (Cards.floor_div60 fp seconds) 60).
    - apply longer_differs. rewrite length_append. cbn [String.length]. lia.
    - apply hours_minutes_not_due. }
  split; [exact Hiff|]. split.
  - unfold Cards.countdown_text. destruct (Cards.isDue seconds) eqn:E; [|reflexivity].
    symmetry. apply Hiff. reflexivity.
  - unfold Cards.isDue, Cards.getCountdownColor. intros H%Z.leb_le.
    assert (Z.leb seconds 120 = true) as -> by (apply Z.leb_le; lia). reflexivity.
Qed.

(** X2.  For whole seconds up to [Cards.exact], where the arithmetic of
    the code is exact: past a minute the countdown never reads "0 min" and
    never shows 60 minutes or more in the minutes place.  Below an hour it
    is the whole minutes, 1 to 59; from an hour on it is hours and
    minutes, the minutes below 60, and the two give the seconds back to
    within a minute. *)
Theorem countdown_ranges (fp : Cards.Doubles) (seconds : Z) :
  60 < seconds <= Cards.exact ->
  (seconds < 3600 ->
   Cards.formatCountdown fp seconds = pretty (seconds / 60) +:+ " min"
   /\ 1 <= seconds / 60 <= 59)
  /\ (3600 <= seconds ->
      exists hours minutes,
        Cards.formatCountdown fp seconds
        = pretty hours +:+ "h " +:+ pretty minutes +:+ "m"
        /\ 1 <= hours
        /\ 0 <= minutes < 60
        /\ 3600 * hours + 60 * minutes <= seconds < 3600 * hours + 60 * minutes + 60).
Proof.
  intros Hs. unfold Cards.formatCountdown.
  assert (Z.leb seconds 60 = false) as -> by (apply Z.leb_gt; lia).
  pose proof (Z.div_mod seconds 60 ltac:(lia)) as Hdm.
  pose proof (Z.mod_pos_bound seconds 60 ltac:(lia)) as Hm.
  pose proof (Z.div_mod (seconds / 60) 60 ltac:(lia)) as Hdm'.
  pose proof (Z.mod_pos_bound (seconds / 60) 60 ltac:(lia)) as Hm'.
  unfold Cards.floor_div60, Cards.show.
  rewrite (is_exact_true seconds) by lia.
  rewrite (is_exact_true (seconds / 60)) by lia.
  split.
  - intros Hlt.
    assert (Z.ltb (seconds / 60) 60 = true) as -> by (apply Z.ltb_lt; lia).
    split; [reflexivity|lia].
  - intros Hge.
    assert (Z.ltb (seconds / 60) 60 = false) as -> by (apply Z.ltb_ge; lia).
    rewrite (is_exact_true (seconds / 60 / 60)) by lia.
    rewrite (is_exact_true ((seconds / 60) mod 60)) by lia.
    exists (seconds / 60 / 60), ((seconds / 60) mod 60).
    split; [reflexivity|]. lia.
Qed.

Lemma countdown_ranges_witness :
  (exists hours minutes,
     Cards.formatCountdown Cards.unrounded 3725
     = pretty hours +:+ "h " +:+ pretty minutes +:+ "m"
     /\ 1 <= hours
     /\ 0 <= minutes < 60
     /\ 3600 * hours + 60 * minutes <= 3725 < 3600 * hours + 60 * minutes + 60)
  /\ Cards.formatCountdown Cards.unrounded 119 = pretty (119 / 60) +:+ " min"
  /\ 1 <= 119 / 60 <= 59.
Proof.
  split.
  - apply (countdown_ranges Cards.unrounded 3725); unfold Cards.exact; lia.
  - apply (countdown_ranges Cards.unrounded 119); unfold Cards.exact; lia.
Defined.

Example countdown_samples (fp : Cards.Doubles) :
  Cards.formatCountdown fp 60 = "Due"
  /\ Cards.formatCountdown fp 61 = "1 min"
  /\ Cards.formatCountdown fp 3599 = "59 min"
  /\ Cards.formatCountdown fp 3600 = "1h 0m"
  /\ Cards.formatCountdown fp 3725 = "1h 2m".
Proof. repeat split. Qed.

Lemma delay_wording_small (fp : Cards.Doubles) (seconds : Z) :
  -30 <= seconds < 30 -> seconds <> 0 -> Cards.formatDelay fp seconds = "0 min early".
Proof.
  intros Hs Hne. unfold Cards.formatDelay, Cards.round_div60.
  pose proof (Z.div_mod (seconds + 30) 60 ltac:(lia)).
  pose proof (Z.mod_pos_bound (seconds + 30) 60 ltac:(lia)).
  assert (Z.eqb seconds 0 = false) as -> by (apply Z.eqb_neq; lia).
  rewrite (is_exact_true seconds) by (unfold Cards.exact; lia).
  assert ((seconds + 30) / 60 = 0) as -> by lia.
  reflexivity.
Qed.

(** X3.  How [formatDelay] words a predicted delay of whole seconds up to
    [Cards.exact] in size, where the arithmetic of the code is exact:
    "On time" for 0 and for nothing else; "late" from 30 seconds on,
    "early" below -30, in minutes rounded to the nearest with halves going
    up; and "0 min early" for every other delay, the small positive ones
    included. *)
Theorem delay_wording (fp : Cards.Doubles) (seconds : Z) :
  Z.abs seconds <= Cards.exact ->
  (Cards.formatDelay fp seconds = "On time" <-> seconds = 0)
  /\ (30 <= seconds ->
      exists minutes,
        Cards.formatDelay fp seconds = pretty minutes +:+ " min late"
        /\ 1 <= minutes
        /\ 60 * minutes - 30 <= seconds < 60 * minutes + 30)
  /\ (seconds < -30 ->
      exists minutes,
        Cards.formatDelay fp seconds = pretty minutes +:+ " min early"
        /\ 1 <= minutes
        /\ - (60 * minutes) - 30 <= seconds < - (60 * minutes) + 30)
  /\ (-30 <= seconds < 30 -> seconds <> 0 -> Cards.formatDelay fp seconds = "0 min early").
Proof.
  intros Hexact.
  pose proof (Z.div_mod (seconds + 30) 60 ltac:(lia)) as Hdm.
  pose proof (Z.mod_pos_bound (seconds + 30) 60 ltac:(lia)) as Hm.
  assert (Hwords : forall s, Cards.formatDelay fp s = "On time" -> s = 0).
  { intros s. unfold Cards.formatDelay.
    destruct (Z.eqb_spec s 0) as [->|Hne]; [reflexivity|].
    intros Heq. exfalso. revert Heq.
    destruct (Z.ltb 0 (Cards.round_div60 fp s)); apply longer_differs;
      rewrite length_append; cbn [String.length]; lia. }
  split; [split; [apply Hwords|intros ->; reflexivity]|].
  unfold Cards.exact in Hexact.
  unfold Cards.formatDelay, Cards.round_div60, Cards.show.
  rewrite (is_exact_true seconds) by (unfold Cards.exact; lia).
  repeat split.
  - intros Hs.
    assert (Z.eqb seconds 0 = false) as -> by (apply Z.eqb_neq; lia).
    assert (Z.ltb 0 ((seconds + 30) / 60) = true) as -> by (apply Z.ltb_lt; lia).
    rewrite (is_exact_true ((seconds + 30) / 60)) by (unfold Cards.exact; lia).
    exists ((seconds + 30) / 60). split; [reflexivity|]. lia.
  - intros Hs.
    assert (Z.eqb seconds 0 = false) as -> by (apply Z.eqb_neq; lia).
    assert (Z.ltb 0 ((seconds + 30) / 60) = false) as -> by (apply Z.ltb_ge; lia).
    rewrite (is_exact_true (Z.abs ((seconds + 30) / 60))) by (unfold Cards.exact; lia).
    exists (Z.abs ((seconds + 30) / 60)). split; [reflexivity|]. lia.
  - intros Hs Hne.
    rewrite <- (delay_wording_small fp seconds Hs Hne).
    unfold Cards.formatDelay, Cards.round_div60, Cards.show.
    rewrite (is_exact_true seconds) by (unfold Cards.exact; lia). reflexivity.
Qed.

Lemma delay_wording_witness :
  (exists minutes,
     Cards.formatDelay Cards.unrounded 150 = pretty minutes +:+ " min late"
     /\ 1 <= minutes
     /\ 60 * minutes - 30 <= 150 < 60 * minutes + 30)
  /\ (exists minutes,
        Cards.formatDelay Cards.unrounded (-90) = pretty minutes +:+ " min early"
        /\ 1 <= minutes
        /\ - (60 * minutes) - 30 <= -90 < - (60 * minutes) + 30).
Proof.
  split.
  - apply (delay_wording Cards.unrounded 150); unfold Cards.exact; lia.
  - apply (delay_wording Cards.unrounded (-90)); unfold Cards.exact; lia.
Defined.

(** X4.  For a predicted delay of 1 to 29 seconds [ETACard] contradicts
    itself: the colour is the one of a late bus, the text says "0 min
    early". *)
Theorem small_delay_is_painted_late_and_worded_early
    (fp : Cards.Doubles) (predictedDelayS : Z) :
  0 < predictedDelayS < 30 ->
  Cards.delay_color predictedDelayS = "text-yellow-400"
  /\ Cards.formatDelay fp predictedDelayS = "0 min early".
Proof.
  intros Hs. split.
  - unfold Cards.delay_color.
    assert (Z.ltb 0 predictedDelayS = true) as -> by (apply Z.ltb_lt; lia). reflexivity.
  - apply delay_wording_small; lia.
Qed.

Lemma small_delay_is_painted_late_and_worded_early_witness :
  Cards.delay_color 10 = "text-yellow-400"
  /\ Cards.formatDelay Cards.unrounded 10 = "0 min early".
Proof. apply (small_delay_is_painted_late_and_worded_early Cards.unrounded 10). lia. Defined.

(** ** Viewport requests on an open socket *)

Lemma subscribe_while_open (s : world) (h : nat) (w : WebSocket) (bounds : MapBounds) :
  wsRef (hk s) = Some h ->
  sockets (env s) !! h = Some w ->
  readyState w = OPEN ->
  subscribeToBounds bounds s
  = with_env (set_sockets
      (<[h := {| readyState := OPEN; sent := sent w ++ [subscribe_bounds bounds] |}]>
         (sockets (env s)))) s.
Proof.
  open_world s. cbn in *. intros -> Hw Hopen.
  unfold subscribeToBounds, current_is_open, sendBounds, ready. cbn.
  rewrite Hw. cbn. rewrite Hopen.
  unfold ws_send, update_socket, with_env, set_sockets. cbn.
  do 2 f_equal. rewrite list_insert_alter.
  apply list_alter_ext; [|reflexivity]. intros x Hx.
  rewrite Hw in Hx. injection Hx as <-. rewrite Hopen. reflexivity.
Qed.

(** X5.  While the socket in [wsRef] is open nothing is held back: every
    viewport request goes out at once, in the order of the calls, none is
    dropped or merged, and neither the pending slot nor anything else of
    the hook or the page changes. *)
Theorem open_socket_sends_every_request
    (requests : list MapBounds) (s : world) (h : nat) (w : WebSocket) :
  wsRef (hk s) = Some h ->
  sockets (env s) !! h = Some w ->
  readyState w = OPEN ->
  request_all requests s
  = with_env (set_sockets
      (<[h := {| readyState := OPEN; sent := sent w ++ map subscribe_bounds requests |}]>
         (sockets (env s)))) s.
Proof.
  revert s w. induction requests as [|bounds rest IH]; intros s w Href Hw Hopen.
  - cbn. rewrite app_nil_r.
    replace {| readyState := OPEN; sent := sent w |} with w
      by (destruct w; cbn in *; congruence).
    rewrite list_insert_id by exact Hw.
    open_world s. reflexivity.
  - cbn [request_all fold_left].
    rewrite (subscribe_while_open s h w bounds Href Hw Hopen).
    fold (request_all rest).
    erewrite IH; cycle 1.
    + exact Href.
    + cbn. apply list_lookup_insert_eq. eapply lookup_lt_Some, Hw.
    + reflexivity.
    + cbn [sent map]. unfold with_env, set_sockets. cbn.
      rewrite list_insert_insert_eq, <- app_assoc. reflexivity.
Qed.

Lemma open_socket_sends_every_request_witness :
  sockets (env (request_all [dublin; howth; dublin] live))
  = [{| readyState := OPEN;
        sent := [subscribe_bounds dublin; subscribe_bounds howth; subscribe_bounds dublin] |}]
  /\ hk (request_all [dublin; howth; dublin] live) = hk live.
Proof.
  rewrite (open_socket_sends_every_request [dublin; howth; dublin] live 0%nat
             {| readyState := OPEN; sent := [] |}); [split|..]; reflexivity.
Defined.

(** ** Frames other than position batches *)

(** X6.  A frame that parses but whose [type] is none of [vehicle_updates],
    [connected] and [bounds_set] changes nothing, whatever else it holds:
    [pong], an unknown or missing type, a type that is no string, a frame
    that is [null], a number or an array. *)
Theorem unhandled_frame_changes_nothing
    (callback : option (value -> world -> world)) (message : value) (s : world) :
  (forall ty, get message "type" = Normal ty -> handled_type ty = false) ->
  ws_onmessage callback (Json message) s = s.
Proof.
  intros Hty.
  unfold ws_onmessage, try_catch, mbind, stmt_bind, mret, stmt_ret, eval, exec. cbn.
  destruct (get message "type") as [ty|e]; [|reflexivity].
  specialize (Hty ty eq_refl). unfold handled_type in Hty.
  apply orb_false_elim in Hty as [Hty Hbounds].
  apply orb_false_elim in Hty as [Hupdates Hconnected].
  rewrite Hupdates, Hconnected, Hbounds. reflexivity.
Qed.

Lemma unhandled_frame_changes_nothing_witness :
  ws_onmessage (Some handleVehicleUpdates) (Json (VObject [("type", VString "pong")])) live
  = live
  /\ ws_onmessage (Some handleVehicleUpdates) (Json VNull) live = live.
Proof.
  split; apply unhandled_frame_changes_nothing.
  - intros ty [= <-]. reflexivity.
  - intros ty [=].
Defined.

(** X7.  The two control frames [connected] and [bounds_set] only ever
    touch [vehicleCount]: it becomes the frame's [vehicle_count] as it is,
    [undefined] when the field is missing.  The frame is dropped whole when
    the logged text cannot be built.  The table, [lastUpdate] and the
    callback are out of their reach. *)
Theorem control_frame_sets_count
    (callback : option (value -> world -> world)) (props : list (string * value))
    (s : world) :
  let ty := own_property props "type" in
  let n := own_property props "vehicle_count" in
  is_type ty "connected" || is_type ty "bounds_set" = true ->
  ws_onmessage callback (Json (VObject props)) s
  = if (is_type ty "connected" && to_string_throws (own_property props "message"))
       || to_string_throws n
    then s
    else setVehicleCount n s.
Proof.
  intros ty n Hty.
  assert (is_type ty "vehicle_updates" = false) as Hupdates.
  { destruct ty as [| | | |t| |]; try reflexivity. cbn in *.
    destruct (String.eqb_spec t "vehicle_updates") as [->|]; [|reflexivity].
    discriminate Hty. }
  unfold ws_onmessage, try_catch, mbind, stmt_bind, mret, stmt_ret, eval, exec. cbn.
  fold ty. rewrite Hupdates.
  destruct (is_type ty "connected") eqn:Hconnected; cbn.
  - unfold template. fold n.
    destruct (to_string_throws (own_property props "message")); cbn; [reflexivity|].
    destruct (to_string_throws n); reflexivity.
  - cbn in Hty. rewrite Hty. unfold template. fold n.
    destruct (to_string_throws n); reflexivity.
Qed.

Lemma control_frame_sets_count_witness :
  ws_onmessage (Some handleVehicleUpdates)
    (Json (VObject [("type", VString "bounds_set")])) live
  = setVehicleCount VUndefined live.
Proof.
  apply (control_frame_sets_count (Some handleVehicleUpdates)
           [("type", VString "bounds_set")] live).
  reflexivity.
Defined.

(** ** The cleanup *)

(** X8.  What the cleanup of the mounting effect does and leaves undone.
    It empties [wsRef], starts closing the socket that was there if that
    was connecting or open, and takes the timer named by
    [reconnectTimeoutRef] out of the pending ones.  It touches no other
    socket and no other timer, and it leaves [connected], the pending
    viewport and [reconnectTimeoutRef] itself as they were. *)
Theorem cleanup_effect (s : world) :
  let s' := cleanup s in
  wsRef (hk s') = None
  /\ (forall h r, wsRef (hk s) = Some h -> ready s h = Some r ->
        ready s' h = Some match r with CONNECTING | OPEN => CLOSING | _ => r end)
  /\ (forall h, wsRef (hk s) <> Some h -> sockets (env s') !! h = sockets (env s) !! h)
  /\ map sent (sockets (env s')) = map sent (sockets (env s))
  /\ (forall id, reconnectTimeoutRef (hk s) = Some id ->
        ~ In id (map fst (timers (env s'))))
  /\ (forall t, In t (timers (env s)) -> reconnectTimeoutRef (hk s) <> Some (fst t) ->
        In t (timers (env s')))
  /\ connected (hk s') = connected (hk s)
  /\ pendingBoundsRef (hk s') = pendingBoundsRef (hk s)
  /\ reconnectTimeoutRef (hk s') = reconnectTimeoutRef (hk s).
Proof.
  destruct s as [[t0 socks tms nxt] [ws tmo pend conn cnt err upd] p].
  unfold cleanup, ready. cbn.
  repeat split.
  - destruct tmo, ws; reflexivity.
  - intros h r -> Hr. destruct tmo; cbn; rewrite list_lookup_alter_eq;
      destruct (_ !! h) as [w|]; cbn in *; try discriminate;
      injection Hr as <-; destruct (readyState w) eqn:Hw; cbn; rewrite ?Hw; reflexivity.
  - intros h Hne. destruct tmo, ws as [h'|]; cbn; try reflexivity;
      apply list_lookup_alter_ne; congruence.
  - assert (forall h (l : list WebSocket),
              map sent (alter (fun w => match readyState w with
                                        | CONNECTING | OPEN => set_readyState CLOSING w
                                        | _ => w
                                        end) h l) = map sent l) as Hsent.
    { intros h l. revert h. induction l as [|w l IH]; intros [|h]; cbn; try reflexivity.
      - destruct (readyState w); reflexivity.
      - f_equal. apply IH. }
    destruct tmo, ws; cbn; try reflexivity; apply Hsent.
  - intros id ->. destruct ws; cbn; intros Hin;
      apply in_map_iff in Hin as (t & <- & Hin);
      apply filter_In in Hin as [_ Hne]; rewrite Pos.eqb_refl in Hne; discriminate.
  - intros t Hin Hne.
    assert (forall id, Some id <> Some (fst t) -> negb (Pos.eqb (fst t) id) = true) as Hkeep.
    { intros id Hid. destruct (Pos.eqb_spec (fst t) id) as [<-|]; [congruence|reflexivity]. }
    destruct tmo as [id|], ws; cbn; try exact Hin; apply filter_In; auto.
  - destruct tmo, ws; reflexivity.
  - destruct tmo, ws; reflexivity.
  - destruct tmo, ws; reflexivity.
Qed.

(** ** Invariants of the hook *)

Lemma browser_summary_refl (s : world) : browser_summary s s.
Proof. split; auto. Qed.

Lemma browser_summary_trans (s1 s2 s3 : world) :
  browser_summary s1 s2 -> browser_summary s2 s3 -> browser_summary s1 s3.
Proof.
  intros [] []. split; try congruence; try lia; auto.
Qed.

Lemma closed_alter_keep (f : WebSocket -> WebSocket) (h : nat) (l : list WebSocket) :
  (forall w, l !! h = Some w -> is_closed (f w) = is_closed w) ->
  length (List.filter is_closed (alter f h l)) = length (List.filter is_closed l).
Proof.
  revert h. induction l as [|w l IH]; intros [|h] Hf; cbn; try reflexivity.
  - rewrite (Hf w eq_refl). destruct (is_closed w); reflexivity.
  - destruct (is_closed w); cbn; rewrite (IH h Hf); reflexivity.
Qed.

Lemma closed_alter_close (f : WebSocket -> WebSocket) (h : nat) (l : list WebSocket)
    (w : WebSocket) :
  l !! h = Some w -> is_closed w = false -> is_closed (f w) = true ->
  length (List.filter is_closed (alter f h l)) = S (length (List.filter is_closed l)).
Proof.
  revert h. induction l as [|x l IH]; intros [|h] Hw Hopen Hclosed; cbn in *; try discriminate.
  - injection Hw as ->. rewrite Hopen, Hclosed. reflexivity.
  - destruct (is_closed x); cbn; rewrite (IH h Hw Hopen Hclosed); reflexivity.
Qed.

Lemma update_socket_summary (h : nat) (f : WebSocket -> WebSocket) (s : world) :
  (forall w, sockets (env s) !! h = Some w -> is_closed (f w) = is_closed w) ->
  browser_summary s (update_socket h f s).
Proof.
  intros Hf. split; cbn; auto.
  - apply length_alter.
  - unfold closed_sockets. cbn. apply closed_alter_keep, Hf.
Qed.

Lemma clearTimeout_summary (id : positive) (s : world) :
  browser_summary s (clearTimeout id s).
Proof.
  split; cbn; auto.
  - apply filter_length_le.
  - intros t Hin. apply filter_In in Hin. tauto.
Qed.

Lemma sendBounds_summary (bounds : MapBounds) (s : world) :
  browser_summary s (sendBounds bounds s) /\ hk (sendBounds bounds s) = hk s.
Proof.
  unfold sendBounds. destruct (wsRef (hk s)) as [h|]; [|split; [apply browser_summary_refl|reflexivity]].
  destruct (ready s h) as [[]|]; try (split; [apply browser_summary_refl|reflexivity]).
  split; [|reflexivity]. apply update_socket_summary. reflexivity.
Qed.

Lemma subscribeToBounds_summary (bounds : MapBounds) (s : world) :
  browser_summary s (subscribeToBounds bounds s)
  /\ wsRef (hk (subscribeToBounds bounds s)) = wsRef (hk s).
Proof.
  unfold subscribeToBounds. destruct (current_is_open s).
  - destruct (sendBounds_summary bounds s) as [Hsum Hhk]. rewrite Hhk. auto.
  - split; [|reflexivity]. split; auto.
Qed.

Lemma ws_onopen_summary (s : world) :
  browser_summary s (ws_onopen s) /\ wsRef (hk (ws_onopen s)) = wsRef (hk s).
Proof.
  unfold ws_onopen. cbn.
  destruct (pendingBoundsRef (hk s)) as [bounds|]; cbn.
  - destruct (sendBounds_summary bounds (setError None (setConnected true s))) as [Hsum Hhk].
    rewrite Hhk. split; [|reflexivity].
    destruct Hsum. split; auto.
  - split; [|reflexivity]. split; auto.
Qed.

Lemma cleanup_summary (s : world) :
  browser_summary s (cleanup s) /\ wsRef (hk (cleanup s)) = None.
Proof.
  unfold cleanup.
  set (s1 := match reconnectTimeoutRef (hk s) with Some id => clearTimeout id s | None => s end).
  assert (browser_summary s s1 /\ wsRef (hk s1) = wsRef (hk s)) as [Hsum Href].
  { subst s1. destruct (reconnectTimeoutRef (hk s)); (split; [|reflexivity]).
    - apply clearTimeout_summary.
    - apply browser_summary_refl. }
  destruct (wsRef (hk s1)) as [h|] eqn:Hws; [|auto].
  split; [|reflexivity].
  apply (browser_summary_trans _ _ _ Hsum).
  assert (browser_summary s1 (ws_close h s1)) as [].
  { apply update_socket_summary. intros w _. unfold is_closed.
    destruct (readyState w) eqn:Hw; cbn; rewrite ?Hw; reflexivity. }
  split; auto.
Qed.

(** [connect] either returns at once or constructs one socket, which goes
    into [wsRef]. *)
Lemma connect_summary (s : world) :
  connect s = s
  \/ (now (env (connect s)) = now (env s)
      /\ length (sockets (env (connect s))) = S (length (sockets (env s)))
      /\ closed_sockets (connect s) = closed_sockets s
      /\ (length (timers (env (connect s))) <= length (timers (env s)))%nat
      /\ (forall t, In t (timers (env (connect s))) -> In t (timers (env s)))
      /\ wsRef (hk (connect s)) = Some (length (sockets (env s)))).
Proof.
  destruct (current_is_open s) eqn:Hopen; [left; apply connect_open, Hopen|right].
  destruct (connect_not_open s Hopen) as (Hsockets & Href & Hnow & Htimers).
  unfold closed_sockets. rewrite Hsockets, Htimers, Hnow, Href.
  rewrite length_app, List.filter_app, length_app. cbn.
  repeat split; try lia.
  - destruct (reconnectTimeoutRef (hk s)); [apply filter_length_le|lia].
  - intros t Hin. destruct (reconnectTimeoutRef (hk s)); [|exact Hin].
    apply filter_In in Hin. tauto.
Qed.

Lemma newest_in_ref_summary (s s' : world) :
  browser_summary s s' -> wsRef (hk s') = wsRef (hk s) ->
  newest_in_ref s -> newest_in_ref s'.
Proof.
  intros [] Href Hs h Hh. rewrite Href in Hh. rewrite same_length0. apply Hs, Hh.
Qed.

Lemma newest_in_ref_none (s : world) : wsRef (hk s) = None -> newest_in_ref s.
Proof. intros Href h Hh. congruence. Qed.

Lemma newest_in_ref_connect (s : world) : newest_in_ref s -> newest_in_ref (connect s).
Proof.
  intros Hs. destruct (connect_summary s) as [->|(_ & Hlen & _ & _ & _ & Href)]; [exact Hs|].
  intros h Hh. rewrite Href in Hh. injection Hh as <-. symmetry. exact Hlen.
Qed.

Lemma step_newest_in_ref (e : event) (s s' : world) :
  step e s = Some s' -> newest_in_ref s -> newest_in_ref s'.
Proof.
  intros Hstep Hs. destruct e as [| |bounds|bounds|data|h|h data|h failed|id|d]; cbn in Hstep.
  - injection Hstep as <-. apply newest_in_ref_connect, Hs.
  - injection Hstep as <-. apply newest_in_ref_none, cleanup_summary.
  - injection Hstep as <-.
    destruct (subscribeToBounds_summary bounds s) as [Hsum Href].
    intros h Hh. cbn in Hh. rewrite Href in Hh. cbn.
    destruct Hsum. rewrite same_length0. apply Hs, Hh.
  - destruct (mapReady (pg s)); [|discriminate]. injection Hstep as <-.
    destruct (subscribeToBounds_summary bounds s) as [Hsum Href].
    eapply newest_in_ref_summary; eauto.
  - injection Hstep as <-. exact Hs.
  - destruct (ready s h) as [[]|]; try discriminate. injection Hstep as <-.
    destruct (ws_onopen_summary (update_socket h (set_readyState OPEN) s)) as [Hsum Href].
    eapply newest_in_ref_summary; [exact Hsum|exact Href|].
    intros h' Hh'. cbn. rewrite length_alter. apply Hs, Hh'.
  - destruct (ready s h) as [[]|]; try discriminate. injection Hstep as <-.
    destruct (ws_onmessage_frame data s) as (Henv & Href & _).
    intros h' Hh'. rewrite Henv. rewrite Href in Hh'. apply Hs, Hh'.
  - apply close_schedules_reconnect in Hstep as (_ & _ & _ & Href & _).
    apply newest_in_ref_none, Href.
  - destruct (timer_due id s); [|discriminate]. injection Hstep as <-.
    apply newest_in_ref_connect. exact Hs.
  - destruct (Z.leb 0 d); [|discriminate]. injection Hstep as <-. exact Hs.
Qed.

Lemma run_invariant (P : world -> Prop) :
  (forall e s s', step e s = Some s' -> P s -> P s') ->
  forall es s s', run es s = Some s' -> P s -> P s'.
Proof.
  intros Hstep es. induction es as [|e es IH]; intros s s' Hrun Hs; cbn in Hrun.
  - injection Hrun as <-. exact Hs.
  - destruct (step e s) as [s1|] eqn:He; [|discriminate].
    eapply IH; [exact Hrun|]. eapply Hstep; eauto.
Qed.

(** X9.  In every state the page can reach, the socket in [wsRef], if
    there is one, is the socket that was constructed last. *)
Theorem wsRef_holds_the_newest_socket (s : world) (h : nat) :
  reachable s ->
  wsRef (hk s) = Some h ->
  S h = length (sockets (env s)).
Proof.
  intros (t0 & es & Hrun). revert h.
  change (newest_in_ref s).
  eapply (run_invariant newest_in_ref step_newest_in_ref); [exact Hrun|].
  apply newest_in_ref_none. reflexivity.
Qed.

Lemma wsRef_holds_the_newest_socket_witness :
  2%nat = length (sockets (env remounted)).
Proof.
  apply (wsRef_holds_the_newest_socket remounted 1%nat).
  - exists 0, [Mount; Unmount; Mount]. reflexivity.
  - reflexivity.
Defined.

Lemma reconnects_summary (s s' : world) :
  browser_summary s s' -> reconnects_in_order s -> reconnects_in_order s'.
Proof.
  intros [] [Hdue Hcount]. split.
  - apply List.Forall_forall. intros t Hin. rewrite same_now0.
    rewrite List.Forall_forall in Hdue. apply Hdue, old_timers0, Hin.
  - lia.
Qed.

Lemma reconnects_connect (s : world) : reconnects_in_order s -> reconnects_in_order (connect s).
Proof.
  intros Hs.
  destruct (connect_summary s) as [->|(Hnow & _ & Hclosed & Hfewer & Hold & _)]; [exact Hs|].
  destruct Hs as [Hdue Hcount]. split.
  - apply List.Forall_forall. intros t Hin. rewrite Hnow.
    rewrite List.Forall_forall in Hdue. apply Hdue, Hold, Hin.
  - lia.
Qed.

Lemma step_reconnects_in_order (e : event) (s s' : world) :
  step e s = Some s' -> reconnects_in_order s -> reconnects_in_order s'.
Proof.
  intros Hstep Hs. destruct e as [| |bounds|bounds|data|h|h data|h failed|id|d]; cbn in Hstep.
  - injection Hstep as <-. apply reconnects_connect, Hs.
  - injection Hstep as <-. eapply reconnects_summary; [apply cleanup_summary|exact Hs].
  - injection Hstep as <-.
    eapply (reconnects_summary s); [|exact Hs].
    destruct (subscribeToBounds_summary bounds s) as [[] _]. split; auto.
  - destruct (mapReady (pg s)); [|discriminate]. injection Hstep as <-.
    eapply reconnects_summary; [apply subscribeToBounds_summary|exact Hs].
  - injection Hstep as <-. exact Hs.
  - unfold ready in Hstep.
    destruct (sockets (env s) !! h) as [w|] eqn:Hw; [|discriminate]. cbn in Hstep.
    destruct (readyState w) eqn:Hstate; try discriminate. injection Hstep as <-.
    eapply reconnects_summary; [|exact Hs].
    eapply browser_summary_trans; [|apply ws_onopen_summary].
    apply update_socket_summary. intros w' Hw'. rewrite Hw in Hw'. injection Hw' as <-.
    unfold is_closed. cbn. rewrite Hstate. reflexivity.
  - destruct (ready s h) as [[]|]; try discriminate. injection Hstep as <-.
    destruct (ws_onmessage_frame data s) as (Henv & _).
    destruct Hs as [Hdue Hcount]. unfold reconnects_in_order, closed_sockets.
    rewrite Henv. split; assumption.
  - assert (exists w, sockets (env s) !! h = Some w /\ is_closed w = false) as (w & Hw & Hopen).
    { unfold ready in Hstep. destruct (sockets (env s) !! h) as [w|]; [|discriminate].
      exists w. split; [reflexivity|]. unfold is_closed. cbn in Hstep.
      destruct (readyState w); try reflexivity. discriminate. }
    apply close_schedules_reconnect in Hstep
      as (Htimers & _ & _ & _ & _ & Hnow & Hsockets & _).
    destruct Hs as [Hdue Hcount]. unfold reconnects_in_order, closed_sockets.
    rewrite Htimers, Hnow, Hsockets. split.
    + apply Forall_app. split; [exact Hdue|]. constructor; [cbn; lia|constructor].
    + rewrite length_app. cbn.
      rewrite (closed_alter_close (set_readyState CLOSED) h _ w Hw Hopen eq_refl).
      unfold closed_sockets in Hcount. lia.
  - destruct (timer_due id s); [|discriminate]. injection Hstep as <-.
    apply reconnects_connect.
    eapply reconnects_summary; [apply clearTimeout_summary|exact Hs].
  - destruct (Z.leb_spec 0 d); [|discriminate]. injection Hstep as <-.
    destruct Hs as [Hdue Hcount]. split; [|exact Hcount].
    cbn. eapply Forall_impl; [exact Hdue|]. cbn. intros t Ht. lia.
Qed.

(** X10.  In every state the page can reach, no pending reconnect is due
    more than 3000 ms from now, and the pending reconnects are no more than
    the sockets that have closed: each close schedules one, nothing else
    schedules any. *)
Theorem reconnects_are_bounded (s : world) :
  reachable s ->
  Forall (fun t => snd t <= now (env s) + 3000) (timers (env s))
  /\ (length (timers (env s)) <= closed_sockets s)%nat.
Proof.
  intros (t0 & es & Hrun).
  change (reconnects_in_order s).
  eapply (run_invariant reconnects_in_order step_reconnects_in_order); [exact Hrun|].
  split; [constructor|cbn; lia].
Qed.

Lemma reconnects_are_bounded_witness :
  Forall (fun t => snd t <= now (env two_feeds) + 3000) (timers (env two_feeds))
  /\ (length (timers (env two_feeds)) <= closed_sockets two_feeds)%nat.
Proof.
  apply (reconnects_are_bounded two_feeds).
  exists 0, [Mount; Unmount; Mount; Close 0%nat true; Open 1%nat; Tick 3000; Timer 1%positive].
  vm_compute. reflexivity.
Defined.

(** ** The viewport after a reconnect *)

Lemma map_sent_alter (r : ReadyState) (h : nat) (l : list WebSocket) :
  map sent (alter (set_readyState r) h l) = map sent l.
Proof.
  revert h. induction l as [|w l IH]; intros [|h]; cbn; try reflexivity.
  f_equal. apply IH.
Qed.

Lemma open_without_pending (s s' : world) (h : nat) :
  pendingBoundsRef (hk s) = None ->
  step (Open h) s = Some s' ->
  map sent (sockets (env s')) = map sent (sockets (env s))
  /\ pendingBoundsRef (hk s') = None.
Proof.
  intros Hpending Hstep. cbn [step] in Hstep.
  destruct (ready s h) as [[]|]; try discriminate. injection Hstep as <-.
  unfold ws_onopen. cbn. rewrite Hpending. cbn.
  split; [apply map_sent_alter|exact Hpending].
Qed.

(** X11.  The page does not subscribe again after a reconnect.  Once a
    socket has opened, the pending slot is empty; unless the map is moved in
    between, the socket that opens next is sent nothing, so the viewport
    that went out on the earlier connection is not repeated on the new
    one. *)
Theorem reconnect_does_not_resubscribe
    (s s0 s1 s2 : world) (h h' : nat) (es : list event) :
  step (Open h) s = Some s0 ->
  forallb quiet es = true ->
  run es s0 = Some s1 ->
  step (Open h') s1 = Some s2 ->
  map sent (sockets (env s2)) = map sent (sockets (env s1))
  /\ pendingBoundsRef (hk s2) = None.
Proof.
  intros Hopen Hquiet Hrun Hopen'.
  apply (open_without_pending s1 s2 h'); [|exact Hopen'].
  rewrite (quiet_run_pending es s0 s1 Hquiet Hrun).
  assert (ready s h = Some CONNECTING) as Hconnecting.
  { cbn [step] in Hopen. destruct (ready s h) as [[]|]; try discriminate. reflexivity. }
  destruct (open_effect s h Hconnecting) as (s0' & Hstep & _ & _ & Hpending).
  congruence.
Qed.

Lemma reconnect_does_not_resubscribe_witness :
  map sent (sockets (env (after [Mount; MapReady dublin; Open 0%nat; Close 0%nat true;
                                 Tick 3000; Timer 1%positive; Open 1%nat])))
  = map sent (sockets (env (after [Mount; MapReady dublin; Open 0%nat; Close 0%nat true;
                                   Tick 3000; Timer 1%positive])))
  /\ pendingBoundsRef (hk (after [Mount; MapReady dublin; Open 0%nat; Close 0%nat true;
                                  Tick 3000; Timer 1%positive; Open 1%nat])) = None.
Proof.
  apply (reconnect_does_not_resubscribe
           (after [Mount; MapReady dublin])
           (after [Mount; MapReady dublin; Open 0%nat])
           (after [Mount; MapReady dublin; Open 0%nat; Close 0%nat true;
                   Tick 3000; Timer 1%positive])
           (after [Mount; MapReady dublin; Open 0%nat; Close 0%nat true;
                   Tick 3000; Timer 1%positive; Open 1%nat])
           0%nat 1%nat [Close 0%nat true; Tick 3000; Timer 1%positive]);
    vm_compute; reflexivity.
Defined.

(** ** The marker effect *)

Lemma place_marker_readable (tripId vehicle : value) (drawn : jsmap marker) :
  can_read vehicle = true ->
  place_marker (Normal tt, drawn) (tripId, vehicle)
  = (Normal tt, map_set tripId (marker_for vehicle (map_get tripId drawn)) drawn).
Proof.
  unfold place_marker, marker_for, prop.
  destruct vehicle; try discriminate; intros _; cbn; destruct (map_get tripId drawn); reflexivity.
Qed.

Lemma map_get_not_key {V} (a : string) (ids : list string) (table : jsmap V) :
  map_keys table = map VString ids -> ~ In a ids -> map_get (VString a) table = None.
Proof.
  revert ids. induction table as [|[k v] rest IH]; intros [|c ids]; cbn; try discriminate.
  - reflexivity.
  - intros [= -> Hrest] Hin. cbn.
    destruct (String.eqb_spec c a) as [->|Hne]; [tauto|].
    apply (IH ids Hrest). tauto.
Qed.

Lemma place_markers_spec (ids : list string) (table : jsmap value) (drawn : jsmap marker) :
  map_keys table = map VString ids ->
  List.NoDup ids ->
  readable table ->
  exists drawn',
    fold_left place_marker table (Normal tt, drawn) = (Normal tt, drawn')
    /\ forall a,
         map_get (VString a) drawn'
         = match map_get (VString a) table with
           | Some vehicle => Some (marker_for vehicle (map_get (VString a) drawn))
           | None => map_get (VString a) drawn
           end.
Proof.
  revert ids drawn. induction table as [|[k v] rest IH]; intros ids drawn Hkeys Hnodup Hread.
  - exists drawn. split; [reflexivity|]. intros a. reflexivity.
  - destruct ids as [|c ids]; [discriminate|]. cbn in Hkeys. injection Hkeys as -> Hkeys.
    apply List.NoDup_cons_iff in Hnodup as [Hfresh Hnodup].
    apply Forall_cons in Hread as [Hv Hread]. cbn in Hv.
    cbn [fold_left]. rewrite (place_marker_readable _ _ _ Hv).
    destruct (IH ids (map_set (VString c) (marker_for v (map_get (VString c) drawn)) drawn)
                Hkeys Hnodup Hread) as (drawn' & Hfold & Hget).
    exists drawn'. split; [exact Hfold|]. intros a. rewrite Hget, map_get_set_string.
    cbn [map_get same_value_zero].
    destruct (String.eqb_spec c a) as [<-|Hne]; [|reflexivity].
    rewrite (map_get_not_key c ids rest Hkeys Hfresh). reflexivity.
Qed.

Lemma remove_markers_get (tripId : string) (table : jsmap value) (drawn : jsmap marker) :
  map_get (VString tripId) (remove_markers table drawn)
  = if map_has (VString tripId) table then map_get (VString tripId) drawn else None.
Proof.
  assert (Hsame : forall k0, same_value_zero k0 (VString tripId) = true -> k0 = VString tripId).
  { intros [| |x|x|c|x|x]; cbn; try discriminate. intros ->%String.eqb_eq. reflexivity. }
  unfold remove_markers.
  induction drawn as [|[k0 m0] rest IH].
  - destruct (map_has (VString tripId) table); reflexivity.
  - cbn [List.filter fst].
    destruct (map_has k0 table) eqn:Hk0; cbn [map_get]; rewrite ?IH;
      destruct (same_value_zero k0 (VString tripId)) eqn:E; try reflexivity;
      apply Hsame in E; subst k0; rewrite Hk0; reflexivity.
Qed.

Lemma marker_for_record (v : VehiclePosition) (existingMarker : option marker) :
  marker_for (vehicle_json v) existingMarker
  = {| latlng := (VNumber (latitude v), VNumber (longitude v));
       icon := match bearing v with Some b => VNumber b | None => VUndefined end;
       popup := match existingMarker with
                | Some m => popup m
                | None => vehicle_json v
                end |}.
Proof.
  unfold marker_for, prop, vehicle_json. destruct (bearing v), (speed v); reflexivity.
Qed.

Lemma apply_keys_NoDup (batch : list VehiclePosition) :
  exists ids, map_keys (apply batch []) = map VString ids /\ List.NoDup ids.
Proof.
  exists (distinct_ids batch). split.
  - apply (map_keys_apply batch [] []). reflexivity.
  - apply NoDup_ListNoDup, distinct_ids_spec.
Qed.

(** X12.  The marker effect brings the markers in line with the table.
    For a table built by the feed from nothing, once the map is ready the
    effect leaves, for every trip id, a marker exactly if the id is in the
    table; the marker stands at the position of the latest record of that
    trip and its icon shows that record's bearing.  Its popup, though, is
    not rebuilt: it stays the one of the marker that was there, which shows
    the record the marker was created for. *)
Theorem markers_follow_the_table
    (batches : list (list VehiclePosition)) (p : page) (tripId : string) :
  mapReady p = true ->
  vehicles p = apply_all batches [] ->
  map_get (VString tripId) (markersRef (update_markers p))
  = match latest tripId (concat batches) with
    | Some v =>
        Some {| latlng := (VNumber (latitude v), VNumber (longitude v));
                icon := match bearing v with Some b => VNumber b | None => VUndefined end;
                popup := match map_get (VString tripId) (markersRef p) with
                         | Some existingMarker => popup existingMarker
                         | None => vehicle_json v
                         end |}
    | None => None
    end.
Proof.
  intros Hready Htable. unfold update_markers. rewrite Hready, Htable, apply_all_concat.
  destruct (apply_keys_NoDup (concat batches)) as (ids & Hkeys & Hnodup).
  destruct (place_markers_spec ids (apply (concat batches) [])
              (remove_markers (apply (concat batches) []) (markersRef p)) Hkeys Hnodup)
    as (drawn' & -> & Hget).
  { apply apply_readable. constructor. }
  cbn. rewrite Hget, remove_markers_get. unfold map_has.
  rewrite map_get_apply. cbn.
  destruct (latest tripId (concat batches)) as [v|]; [|reflexivity].
  rewrite marker_for_record. reflexivity.
Qed.

Lemma markers_follow_the_table_witness :
  map_get (VString "A")
    (markersRef (update_markers
       {| vehicles := apply_all [[sample "A" 20 (Some 90%Q)]] [];
          markersRef := [(VString "A",
                          {| latlng := (VNumber 53.35, VNumber (-6.26));
                             icon := VUndefined;
                             popup := vehicle_json (sample "A" 10 None) |})];
          mapReady := true; render_failed := false |}))
  = Some {| latlng := (VNumber 53.35, VNumber (-6.26));
            icon := VNumber 90;
            popup := vehicle_json (sample "A" 10 None) |}.
Proof.
  apply (markers_follow_the_table [[sample "A" 20 (Some 90%Q)]]
           {| vehicles := apply_all [[sample "A" 20 (Some 90%Q)]] [];
              markersRef := [(VString "A",
                              {| latlng := (VNumber 53.35, VNumber (-6.26));
                                 icon := VUndefined;
                                 popup := vehicle_json (sample "A" 10 None) |})];
              mapReady := true; render_failed := false |} "A"); reflexivity.
Defined.

(** ** The REST snapshot *)

(** X13.  The REST snapshot replaces the table, it is not merged into it:
    whatever the feed had put there, afterwards the table holds the records
    of the snapshot and nothing else.  A snapshot whose [vehicles] cannot be
    iterated is dropped and leaves the page as it was. *)
Theorem snapshot_replaces_the_table (data : value) (p : page) :
  (forall batch,
     get data "vehicles" = Normal (VArray (map vehicle_json batch)) ->
     vehicles (fetchInitialVehicles data p) = apply batch []
     /\ forall tripId,
          map_get (VString tripId) (vehicles (fetchInitialVehicles data p))
          = vehicle_json <$> latest tripId batch)
  /\ ((forall vs, get data "vehicles" = Normal vs -> iterate vs = Throw TypeError) ->
      fetchInitialVehicles data p = p).
Proof.
  split.
  - intros batch Hdata.
    assert (vehicles (fetchInitialVehicles data p) = apply batch []) as Htable.
    { unfold fetchInitialVehicles. rewrite Hdata. cbn.
      rewrite set_each_apply. apply update_markers_vehicles. }
    split; [exact Htable|]. intros tripId. rewrite Htable, map_get_apply.
    destruct (latest tripId batch); reflexivity.
  - intros Hbad. unfold fetchInitialVehicles.
    destruct (get data "vehicles") as [vs|e] eqn:Hdata; [|reflexivity].
    cbn. rewrite (Hbad vs eq_refl). reflexivity.
Qed.

(** ** Batches with a record that is [null] *)

Lemma set_each_unreadable (updates : list value) (table : jsmap value) :
  Exists (fun v => can_read v = false) updates ->
  set_each updates table = Throw TypeError.
Proof.
  intros Hbad. revert table.
  induction updates as [|v rest IH]; intros table; [inversion Hbad|].
  cbn [set_each].
  destruct (can_read v) eqn:Hv.
  - assert (exists tripId, get v "trip_id" = Normal tripId) as [tripId ->]
      by (destruct v; try discriminate; eexists; reflexivity).
    apply IH. inversion Hbad; subst; [congruence|assumption].
  - destruct v; try discriminate; reflexivity.
Qed.

(** X14.  One record that is [null] fails the whole batch.  The frame
    passes the handler of the hook, which counts the records and moves
    [lastUpdate]; the updater of the page then throws while React renders,
    out of reach of the handler's [catch], and none of the records of the
    batch reaches the table, those before the [null] included. *)
Theorem null_record_fails_the_batch
    (s : world) (h : nat) (props : list (string * value)) (elems : list value) :
  ready s h = Some OPEN ->
  own_property props "type" = VString "vehicle_updates" ->
  own_property props "vehicles" = VArray elems ->
  Exists (fun v => can_read v = false) elems ->
  (forall prev, updater (VArray elems) prev = Throw TypeError)
  /\ step (Message h (Json (VObject props))) s
     = Some (with_pg (set_render_failed true)
               (setVehicleCount (of_nat (length elems))
                  (setLastUpdate (Some (now (env s))) s))).
Proof.
  intros Hopen Hty Hvs Hbad.
  assert (forall prev, updater (VArray elems) prev = Throw TypeError) as Hthrow.
  { intros prev. apply set_each_unreadable, Hbad. }
  split; [exact Hthrow|].
  cbn [step]. rewrite Hopen, (ws_onmessage_any_batch s props Hty), Hvs. cbn [get].
  f_equal. unfold handleVehicleUpdates, with_pg, setVehicles. cbn [pg].
  rewrite Hthrow. reflexivity.
Qed.

Lemma null_record_fails_the_batch_witness :
  step (Message 0%nat
          (Json (VObject [("type", VString "vehicle_updates");
                          ("vehicles", VArray [vehicle_json (sample "A" 10 None); VNull])])))
    live
  = Some (with_pg (set_render_failed true)
            (setVehicleCount (of_nat 2) (setLastUpdate (Some 0) live))).
Proof.
  apply (null_record_fails_the_batch live 0%nat
           [("type", VString "vehicle_updates");
            ("vehicles", VArray [vehicle_json (sample "A" 10 None); VNull])]
           [vehicle_json (sample "A" 10 None); VNull]); try reflexivity.
  right. left. reflexivity.
Defined.

(** ** The size of the table *)

Lemma map_size_apply (batch : list VehiclePosition) (table : jsmap value) :
  (map_size table <= map_size (apply batch table) <= map_size table + length batch)%nat.
Proof.
  revert table. induction batch as [|v rest IH]; intros table; cbn [apply fold_left length].
  - lia.
  - fold (apply rest (map_set (VString (trip_id v)) (vehicle_json v) table)).
    pose proof (IH (map_set (VString (trip_id v)) (vehicle_json v) table)) as Hrest.
    rewrite map_size_set in Hrest.
    destruct (map_has (VString (trip_id v)) table); lia.
Qed.

Lemma map_size_apply_known (batch : list VehiclePosition) (table : jsmap value) :
  Forall (fun v => map_has (VString (trip_id v)) table = true) batch ->
  map_size (apply batch table) = map_size table.
Proof.
  revert table. induction batch as [|v rest IH]; intros table Hknown; [reflexivity|].
  apply Forall_cons in Hknown as [Hv Hrest].
  cbn [apply fold_left].
  fold (apply rest (map_set (VString (trip_id v)) (vehicle_json v) table)).
  rewrite IH.
  - rewrite map_size_set, Hv. reflexivity.
  - eapply Forall_impl; [exact Hrest|]. cbn. intros w Hw. apply map_has_set_mono, Hw.
Qed.

(** X15.  A batch never shrinks the table and adds at most one entry per
    record; a batch delivered a second time changes neither the size of
    the table nor what is stored under any trip id. *)
Theorem batch_grows_table_once (batch : list VehiclePosition) (table : jsmap value) :
  (map_size table <= map_size (apply batch table) <= map_size table + length batch)%nat
  /\ map_size (apply batch (apply batch table)) = map_size (apply batch table)
  /\ forall tripId,
       map_get (VString tripId) (apply batch (apply batch table))
       = map_get (VString tripId) (apply batch table).
Proof.
  split; [apply map_size_apply|]. split.
  - apply map_size_apply_known. apply List.Forall_forall. intros v Hv.
    apply applied_record_is_key, Hv.
  - intros tripId. rewrite (map_get_apply tripId batch (apply batch table)).
    rewrite (map_get_apply tripId batch table).
    destruct (latest tripId batch); reflexivity.
Qed.

(** ** No entry of the table is [null] *)

Lemma set_each_readable (updates : list value) (table next : jsmap value) :
  set_each updates table = Normal next -> readable table -> readable next.
Proof.
  revert table. induction updates as [|v rest IH]; intros table; cbn [set_each].
  - intros [= <-]. auto.
  - destruct (get v "trip_id") as [tripId|] eqn:Hv; [|discriminate].
    intros Hrest Hr. eapply IH; [exact Hrest|].
    apply map_set_readable; [|exact Hr].
    destruct v; try discriminate; reflexivity.
Qed.

Lemma setVehicles_readable (updates : value) (p : page) :
  readable (vehicles p) -> readable (vehicles (setVehicles (updater updates) p)).
Proof.
  intros Hr. unfold setVehicles, updater.
  destruct (iterate updates) as [vs|]; [|exact Hr].
  destruct (set_each vs (vehicles p)) as [next|] eqn:E; [|exact Hr].
  rewrite update_markers_vehicles. cbn. eapply set_each_readable; eassumption.
Qed.

Lemma fetchInitialVehicles_readable (data : value) (p : page) :
  readable (vehicles p) -> readable (vehicles (fetchInitialVehicles data p)).
Proof.
  intros Hr. unfold fetchInitialVehicles.
  destruct (get data "vehicles") as [vs|]; [|exact Hr]. cbn.
  destruct (iterate vs) as [elems|]; [|exact Hr]. cbn.
  destruct (set_each elems []) as [vehicleMap|] eqn:E; [|exact Hr].
  rewrite update_markers_vehicles. cbn. eapply set_each_readable; [exact E|constructor].
Qed.

Lemma step_readable (e : event) (s s' : world) :
  step e s = Some s' -> readable (vehicles (pg s)) -> readable (vehicles (pg s')).
Proof.
  intros Hstep Hr.
  destruct e as [| |bounds|bounds|data|h|h data|h failed|id|d]; cbn [step] in Hstep.
  - injection Hstep as <-. unfold mount. rewrite connect_pg. exact Hr.
  - injection Hstep as <-. rewrite cleanup_pg. exact Hr.
  - injection Hstep as <-. cbn [pg with_pg]. rewrite update_markers_vehicles.
    cbn [vehicles set_mapReady]. rewrite subscribeToBounds_pg. exact Hr.
  - destruct (mapReady (pg s)); [|discriminate]. injection Hstep as <-.
    rewrite subscribeToBounds_pg. exact Hr.
  - injection Hstep as <-. cbn [pg with_pg]. apply fetchInitialVehicles_readable, Hr.
  - destruct (ready s h) as [[]|]; try discriminate. injection Hstep as <-.
    rewrite ws_onopen_pg. exact Hr.
  - destruct (ready s h) as [[]|]; try discriminate. injection Hstep as <-.
    destruct (ws_onmessage_pg data s) as [->|[updates ->]]; [exact Hr|].
    apply setVehicles_readable, Hr.
  - apply close_schedules_reconnect in Hstep as (_ & _ & _ & _ & _ & _ & _ & ->). exact Hr.
  - destruct (timer_due id s); [|discriminate]. injection Hstep as <-.
    unfold reconnect. rewrite connect_pg. exact Hr.
  - destruct (Z.leb 0 d); [|discriminate]. injection Hstep as <-. exact Hr.
Qed.

(** X16.  In every state the page can reach, whatever the frames and the
    snapshot held, no entry of the table is [null] or [undefined]: the
    marker effect can read [latitude], [longitude] and [bearing] of every
    entry. *)
Theorem table_entries_can_be_read (s : world) (tripId vehicle : value) :
  reachable s ->
  In (tripId, vehicle) (vehicles (pg s)) ->
  exists lat lng heading,
    get vehicle "latitude" = Normal lat
    /\ get vehicle "longitude" = Normal lng
    /\ get vehicle "bearing" = Normal heading.
Proof.
  intros (t0 & es & Hrun) Hin.
  assert (readable (vehicles (pg s))) as Hr.
  { eapply (run_invariant (fun s => readable (vehicles (pg s))) step_readable); [exact Hrun|].
    constructor. }
  unfold readable in Hr. rewrite List.Forall_forall in Hr.
  specialize (Hr _ Hin). cbn in Hr.
  destruct vehicle; try discriminate; cbn; do 3 eexists; repeat split; reflexivity.
Qed.

Lemma table_entries_can_be_read_witness :
  exists lat lng heading,
    get (VString "a") "latitude" = Normal lat
    /\ get (VString "a") "longitude" = Normal lng
    /\ get (VString "a") "bearing" = Normal heading.
Proof.
  apply (table_entries_can_be_read
           (after [Mount; Open 0%nat;
                   Message 0%nat (Json (VObject [("type", VString "vehicle_updates");
                                                 ("vehicles", VString "a")]))])
           VUndefined (VString "a")).
  - exists 0, [Mount; Open 0%nat;
               Message 0%nat (Json (VObject [("type", VString "vehicle_updates");
                                             ("vehicles", VString "a")]))].
    vm_compute. reflexivity.
  - left. reflexivity.
Defined.

(** ** The page [LiveTracking] *)

Section LiveTrackingFacts.
Variable toISOString : Q -> completion string.




Lemma show_vehicle_keeps (found : VehiclePosition) (t : LiveTracking.tracking) :
  LiveTracking.vehicle t <> None ->
  LiveTracking.vehicle (snd (LiveTracking.show_vehicle toISOString found t)) <> None.
Proof.
  intros Ht. unfold LiveTracking.show_vehicle.
  destruct (LiveTracking.tracked toISOString found); cbn; [discriminate|exact Ht].
Qed.

Lemma step_keeps_vehicle (e : LiveTracking.event) (t : LiveTracking.tracking) :
  LiveTracking.vehicle t <> None ->
  LiveTracking.vehicle (LiveTracking.step toISOString e t) <> None.
Proof.
  intros Ht. destruct e as [updates|trackingId r]; cbn [LiveTracking.step].
  - unfold LiveTracking.handleVehicleUpdates.
    destruct (LiveTracking.trackingIdRef t) as [[|c rest]|]; try exact Ht.
    destruct (List.find _ updates) as [found|]; [|exact Ht].
    apply show_vehicle_keeps, Ht.
  - unfold LiveTracking.lookup_settled.
    destruct r as [[vehicles|]|]; try exact Ht.
    destruct (List.find _ vehicles) as [found|]; [|exact Ht].
    pose proof (show_vehicle_keeps found t Ht) as Hshow.
    destruct (LiveTracking.show_vehicle toISOString found t) as [[u|e] t']; [exact Hshow|exact Ht].
Qed.

(** X18.  Once [LiveTracking] shows a vehicle it never stops showing one:
    no batch and no outcome of the REST lookup clears it, so the notice
    "no live data" cannot come back, even when a later lookup fails and
    raises the flag. *)
Theorem tracked_vehicle_is_never_dropped
    (es : list LiveTracking.event) (t : LiveTracking.tracking) :
  LiveTracking.vehicle t <> None ->
  LiveTracking.vehicle (LiveTracking.run toISOString es t) <> None
  /\ LiveTracking.notice_shown (LiveTracking.run toISOString es t) = false.
Proof.
  intros Ht.
  assert (LiveTracking.vehicle (LiveTracking.run toISOString es t) <> None) as Hrun.
  { revert t Ht. induction es as [|e es IH]; intros t Ht; [exact Ht|].
    cbn. apply IH, step_keeps_vehicle, Ht. }
  split; [exact Hrun|]. unfold LiveTracking.notice_shown.
  destruct (LiveTracking.vehicle (LiveTracking.run toISOString es t));
    [apply andb_false_r|contradiction].
Qed.

End LiveTrackingFacts.


Lemma tracked_vehicle_is_never_dropped_witness :
  LiveTracking.notice_shown
    (LiveTracking.run (fun _ => Normal "2024-01-01T00:00:10.000Z")
       [LiveTracking.Batch [sample "A" 10 None];
        LiveTracking.Lookup "A" LiveTracking.Failed]
       {| LiveTracking.trackingIdRef := Some "A";
          LiveTracking.vehicle :=
            Some {| LiveTracking.vehicleId := "bus-A"; LiveTracking.routeId := "46A";
                    LiveTracking.tripId := "A"; LiveTracking.lat := 53.35;
                    LiveTracking.lon := -6.26; LiveTracking.bearing := None;
                    LiveTracking.speed := None;
                    LiveTracking.lastUpdate := "2024-01-01T00:00:00.000Z" |};
          LiveTracking.noVehicleData := false |})
  = false.
Proof.
  apply tracked_vehicle_is_never_dropped. discriminate.
Defined.

(** ** The generic request hook *)

Lemma useApi_run_last {T} (es : list (UseApi.event T)) (e : UseApi.event T)
    (s : UseApi.UseApiState T) :
  UseApi.run (es ++ [e]) s = UseApi.step e UseApi.initial.
Proof.
  unfold UseApi.run. rewrite fold_left_app. cbn. destruct e; reflexivity.
Qed.

(** X19.  The state of [useApi] is that of the event that came last,
    whatever went before and however many requests are in flight.  So it
    never holds a result and an error together, and while [loading] it
    holds neither; but [loading] only says that the last thing that
    happened was a call of [execute]: a request that settles lowers it and
    publishes its own outcome even if a later call is still waiting. *)
Theorem useApi_state_is_last_event {T} (es : list (UseApi.event T)) :
  let s := UseApi.run es UseApi.initial in
  (UseApi.data s = None \/ UseApi.error s = None)
  /\ (UseApi.loading s = true -> UseApi.data s = None /\ UseApi.error s = None)
  /\ (UseApi.loading s = true <-> last es = Some UseApi.Execute)
  /\ (forall result, last es = Some (UseApi.Resolved result) -> UseApi.data s = result).
Proof.
  induction es as [|e es _] using rev_ind; cbn zeta.
  - cbn. repeat split; auto; discriminate.
  - rewrite useApi_run_last, last_snoc.
    destruct e; cbn; repeat split; auto; try discriminate; congruence.
Qed.

(** ** The error the hook reports *)

Lemma connect_error (s : world) : error (hk (connect s)) = error (hk s).
Proof.
  unfold connect. destruct (current_is_open s); [reflexivity|].
  destruct (reconnectTimeoutRef (hk s)); reflexivity.
Qed.

Lemma cleanup_error (s : world) : error (hk (cleanup s)) = error (hk s).
Proof.
  unfold cleanup.
  destruct (reconnectTimeoutRef (hk s)); cbn; destruct (wsRef (hk s)); reflexivity.
Qed.

Lemma subscribeToBounds_error (bounds : MapBounds) (s : world) :
  error (hk (subscribeToBounds bounds s)) = error (hk s).
Proof.
  unfold subscribeToBounds, sendBounds. destruct (current_is_open s); [|reflexivity].
  destruct (wsRef (hk s)) as [h|]; [|reflexivity].
  destruct (ready s h) as [[]|]; reflexivity.
Qed.

(** What a step does to [error]: an opening clears it, a close after a
    failure sets it, nothing else touches it. *)
Lemma step_error (e : event) (s s' : world) :
  step e s = Some s' ->
  error (hk s')
  = match e with
    | Open _ => None
    | Close _ true => Some "WebSocket connection error"
    | _ => error (hk s)
    end.
Proof.
  intros Hstep.
  destruct e as [| |bounds|bounds|data|h|h data|h failed|id|d]; cbn [step] in Hstep.
  - injection Hstep as <-. apply connect_error.
  - injection Hstep as <-. apply cleanup_error.
  - injection Hstep as <-. apply subscribeToBounds_error.
  - destruct (mapReady (pg s)); [|discriminate]. injection Hstep as <-.
    apply subscribeToBounds_error.
  - injection Hstep as <-. reflexivity.
  - destruct (ready s h) as [[]|] eqn:Hready; try discriminate.
    destruct (open_effect s h Hready) as (s0 & Hstep0 & _ & Herror & _).
    cbn [step] in Hstep0. rewrite Hready in Hstep0. congruence.
  - destruct (ready s h) as [[]|]; try discriminate. injection Hstep as <-.
    apply ws_onmessage_frame.
  - destruct (ready s h) as [[]|]; try discriminate; injection Hstep as <-;
      destruct failed; reflexivity.
  - destruct (timer_due id s); [|discriminate]. injection Hstep as <-.
    unfold reconnect. rewrite connect_error. reflexivity.
  - destruct (Z.leb 0 d); [|discriminate]. injection Hstep as <-. reflexivity.
Qed.

(** X20.  The error the hook reports is raised by the close of a socket
    that failed and cleared by the opening of a socket, and by nothing
    else: once raised it stays through closes, reconnect attempts, frames,
    cleanups and viewport requests until some socket opens, and the
    opening of any socket clears it. *)
Theorem error_stays_until_a_socket_opens (es : list event) (s s' : world) :
  error (hk s) <> None ->
  forallb not_open es = true ->
  run es s = Some s' ->
  error (hk s') <> None
  /\ forall h s2, step (Open h) s' = Some s2 -> error (hk s2) = None.
Proof.
  intros Herror Hes Hrun. split.
  - revert s Herror Hrun.
    induction es as [|e es IH]; intros s Herror Hrun; cbn [run forallb] in *.
    + injection Hrun as <-. exact Herror.
    + apply andb_prop in Hes as [He Hes].
      destruct (step e s) as [s1|] eqn:Hstep; [|discriminate].
      apply (IH Hes s1); [|exact Hrun].
      rewrite (step_error e s s1 Hstep).
      destruct e as [| | | | | | |h [|]| |]; try exact Herror; discriminate.
  - intros h s2 Hopen. apply (step_error (Open h) s' s2 Hopen).
Qed.

Lemma error_stays_until_a_socket_opens_witness :
  error (hk (after [Mount; Close 0%nat true; Tick 3000; Timer 1%positive; Unmount])) <> None.
Proof.
  apply (error_stays_until_a_socket_opens
           [Tick 3000; Timer 1%positive; Unmount]
           (after [Mount; Close 0%nat true])
           (after [Mount; Close 0%nat true; Tick 3000; Timer 1%positive; Unmount]));
    vm_compute; [discriminate|reflexivity|reflexivity].
Defined.

(** ** The markers and the table, end to end *)

Lemma keyed_by_trip_apply (batch : list VehiclePosition) (table : jsmap value) :
  keyed_by_trip table -> keyed_by_trip (apply batch table).
Proof.
  intros [(ids & Hkeys & Hnodup) Hread]. split; [|apply apply_readable, Hread].
  exists (fold_left (fun seen v => add_id (trip_id v) seen) batch ids).
  split; [apply map_keys_apply, Hkeys|].
  clear Hkeys. revert ids Hnodup. induction batch as [|v rest IH]; intros ids Hnodup; cbn.
  - exact Hnodup.
  - apply IH. apply NoDup_ListNoDup, add_id_NoDup, NoDup_ListNoDup, Hnodup.
Qed.

Lemma keyed_by_trip_empty : keyed_by_trip [].
Proof. split; [exists []; split; [reflexivity|constructor]|constructor]. Qed.

Lemma update_markers_mirrors (p : page) :
  keyed_by_trip (vehicles p) ->
  (mapReady p = false -> markersRef p = []) ->
  mirrors (update_markers p).
Proof.
  intros Hkeyed Hnone. split; [rewrite update_markers_vehicles; exact Hkeyed|].
  rewrite update_markers_mapReady. unfold update_markers.
  destruct (mapReady p); [|apply Hnone; reflexivity].
  destruct Hkeyed as [(ids & Hkeys & Hnodup) Hread].
  destruct (place_markers_spec ids (vehicles p) (remove_markers (vehicles p) (markersRef p))
              Hkeys Hnodup Hread) as (drawn' & -> & Hget).
  cbn. intros tripId. rewrite Hget, remove_markers_get. unfold map_has.
  destruct (map_get (VString tripId) (vehicles p)) as [vehicle|]; [|reflexivity].
  eexists. split; [reflexivity|]. split; reflexivity.
Qed.

Lemma mirrors_not_ready (p : page) : mirrors p -> mapReady p = false -> markersRef p = [].
Proof. intros [_ Hshow] Hready. rewrite Hready in Hshow. exact Hshow. Qed.

Lemma ws_onmessage_other (data : frame) (s : world) :
  (forall message ty,
     data = Json message -> get message "type" = Normal ty ->
     is_type ty "vehicle_updates" = false) ->
  pg (ws_onmessage (Some handleVehicleUpdates) data s) = pg s.
Proof.
  intros Hother.
  unfold ws_onmessage, try_catch, mbind, stmt_bind, mret, stmt_ret, eval, exec.
  destruct data as [raw|message]; cbn; [reflexivity|].
  destruct (get message "type") as [ty|] eqn:Hty; cbn; [|reflexivity].
  rewrite (Hother message ty eq_refl Hty).
  destruct (is_type ty "connected"); cbn.
  { destruct (get message "message") as [text|]; cbn; [|reflexivity].
    destruct (template text); cbn; [|reflexivity].
    destruct (get message "vehicle_count") as [n|]; cbn; [|reflexivity].
    destruct (template n); reflexivity. }
  destruct (is_type ty "bounds_set"); cbn; [|reflexivity].
  destruct (get message "vehicle_count") as [n|]; cbn; [|reflexivity].
  destruct (template n); reflexivity.
Qed.

Lemma step_mirrors (e : event) (s s' : world) :
  well_typed e -> step e s = Some s' -> mirrors (pg s) -> mirrors (pg s').
Proof.
  intros Htyped Hstep Hs.
  destruct e as [| |bounds|bounds|data|h|h data|h failed|id|d]; cbn [step] in Hstep.
  - injection Hstep as <-. unfold mount. rewrite connect_pg. exact Hs.
  - injection Hstep as <-. rewrite cleanup_pg. exact Hs.
  - injection Hstep as <-. cbn [pg with_pg]. rewrite subscribeToBounds_pg.
    apply update_markers_mirrors; [apply Hs|].
    discriminate.
  - destruct (mapReady (pg s)); [|discriminate]. injection Hstep as <-.
    rewrite subscribeToBounds_pg. exact Hs.
  - injection Hstep as <-. cbn [pg with_pg].
    destruct Htyped as [batch Hdata].
    unfold fetchInitialVehicles. rewrite Hdata. cbn [mbind completion_bind iterate].
    rewrite set_each_apply.
    apply update_markers_mirrors.
    + apply keyed_by_trip_apply, keyed_by_trip_empty.
    + apply (mirrors_not_ready (pg s) Hs).
  - destruct (ready s h) as [[]|]; try discriminate. injection Hstep as <-.
    rewrite ws_onopen_pg. exact Hs.
  - destruct (ready s h) as [[]|]; try discriminate. injection Hstep as <-.
    destruct Htyped as [(ts & batch & ->)|Hother].
    + rewrite ws_onmessage_vehicle_updates, handleVehicleUpdates_batch. cbn [pg with_pg].
      apply update_markers_mirrors.
      * apply keyed_by_trip_apply, Hs.
      * apply (mirrors_not_ready (pg s) Hs).
    + rewrite (ws_onmessage_other data s Hother). exact Hs.
  - apply close_schedules_reconnect in Hstep as (_ & _ & _ & _ & _ & _ & _ & ->). exact Hs.
  - destruct (timer_due id s); [|discriminate]. injection Hstep as <-.
    unfold reconnect. rewrite connect_pg. exact Hs.
  - destruct (Z.leb 0 d); [|discriminate]. injection Hstep as <-. exact Hs.
Qed.

(** X21.  Under frames and a snapshot of the declared types, the markers
    never part from the table.  In every state the page reaches with the
    map ready, whatever the order of batches, snapshot, reconnects and map
    events, a trip id has a marker exactly if it is a key of the table, and
    the marker stands at the position and shows the bearing of the table's
    entry. *)
Theorem markers_mirror_the_table (t0 : Z) (es : list event) (s : world) (tripId : string) :
  Forall well_typed es ->
  run es (initial t0) = Some s ->
  mapReady (pg s) = true ->
  match map_get (VString tripId) (vehicles (pg s)) with
  | Some vehicle =>
      exists m, map_get (VString tripId) (markersRef (pg s)) = Some m
                /\ latlng m = (prop vehicle "latitude", prop vehicle "longitude")
                /\ icon m = prop vehicle "bearing"
  | None => map_get (VString tripId) (markersRef (pg s)) = None
  end.
Proof.
  intros Htyped Hrun Hready.
  assert (mirrors (pg s)) as [_ Hshow].
  { assert (mirrors (pg (initial t0))) as Hinit by (split; [apply keyed_by_trip_empty|reflexivity]).
    revert Hrun Hinit. generalize (initial t0).
    induction Htyped as [|e es He _ IH]; intros s0 Hrun Hs0; cbn [run] in Hrun.
    - injection Hrun as <-. exact Hs0.
    - destruct (step e s0) as [s1|] eqn:Hstep; [|discriminate].
      apply (IH s1 Hrun). apply (step_mirrors e s0 s1 He Hstep Hs0). }
  rewrite Hready in Hshow. apply Hshow.
Qed.

Lemma markers_mirror_the_table_witness :
  exists m,
    map_get (VString "A")
      (markersRef (pg (after [Mount; MapReady dublin; Open 0%nat;
                              Message 0%nat (vehicle_updates "t1" [sample "A" 10 (Some 90%Q)]);
                              Message 0%nat (Corrupt "{oops")])))
    = Some m
    /\ latlng m = (VNumber 53.35, VNumber (-6.26))
    /\ icon m = VNumber 90.
Proof.
  apply (markers_mirror_the_table 0
           [Mount; MapReady dublin; Open 0%nat;
            Message 0%nat (vehicle_updates "t1" [sample "A" 10 (Some 90%Q)]);
            Message 0%nat (Corrupt "{oops")]
           (after [Mount; MapReady dublin; Open 0%nat;
                   Message 0%nat (vehicle_updates "t1" [sample "A" 10 (Some 90%Q)]);
                   Message 0%nat (Corrupt "{oops")])
           "A").
  - do 3 (apply Forall_cons_2; [exact I|]).
    apply Forall_cons_2; [left; exists "t1", [sample "A" 10 (Some 90%Q)]; reflexivity|].
    apply Forall_cons_2; [right; intros message ty [=]|].
    apply Forall_nil_2.
  - vm_compute. reflexivity.
  - reflexivity.
Defined.
